(** * ArchiveTune-Nightly helper scripts: a shallow embedding

    The repository holds three Python scripts:
    - [scripts/escape-changelog.py] and [scripts/escape-markdown.py], which
      escape a text for Telegram MarkdownV2 and print it, and
    - [sync_readme.py], which substitutes a placeholder of README.md with a
      fetched text.

    A Python [str] is a sequence of Unicode code points; it is embedded as a
    list of code points ([N]).  [str.replace], slicing, [urllib.parse.quote]
    and [print] are embedded from their CPython behaviour; the functions of
    the scripts are embedded on top of them, statement by statement. *)

From Stdlib Require Import String Ascii List NArith Arith Bool Lia.
Import ListNotations.

Local Open Scope N_scope.
Local Open Scope list_scope.

(** ** Python strings *)

Module PyStr.

(** A code point. *)
Definition char := N.

(** A Python [str]. *)
Definition str := list char.

(** A literal of the scripts, from its ASCII spelling. *)
Fixpoint lit (s : string) : str :=
  match s with
  | EmptyString => []
  | String a s' => N_of_ascii a :: lit s'
  end.

(** [s.startswith(old)], on the rest of a string. *)
Fixpoint startswith (old s : str) : bool :=
  match old, s with
  | [], _ => true
  | _ :: _, [] => false
  | a :: old', b :: s' => (a =? b) && startswith old' s'
  end.

(** The scan of [str.replace] for a non-empty [old]: left to right, every
    occurrence found is replaced and the scan resumes after it, so that
    occurrences do not overlap.  [skip] counts the characters of the
    occurrence just replaced that are still to be passed over. *)
Fixpoint replace_from (skip : nat) (old new s : str) : str :=
  match s with
  | [] => []
  | c :: s' =>
      match skip with
      | S k => replace_from k old new s'
      | O =>
          if startswith old s
          then new ++ replace_from (length old - 1) old new s'
          else c :: replace_from 0 old new s'
      end
  end.

(** [s.replace(old, new)].  With an empty [old], Python puts [new] before
    every character and at the end. *)
Definition replace (old new s : str) : str :=
  match old with
  | [] => new ++ flat_map (fun c => c :: new) s
  | _ :: _ => replace_from 0 old new s
  end.

(** [s[:n]]. *)
Definition slice_to (n : nat) (s : str) : str := firstn n s.

(** [c in l], for a character and a list of characters. *)
Definition mem (c : char) (l : list char) : bool := existsb (N.eqb c) l.

(** [old in s]. *)
Fixpoint contains (old s : str) : bool :=
  match s with
  | [] => startswith old []
  | _ :: s' => startswith old s || contains old s'
  end.

End PyStr.

Import PyStr.

(** Characters the scripts name. *)
Definition backslash : char := 92.
Definition newline : char := 10.
Definition underscore : char := 95.
Definition percent : char := 37.
Definition slash : char := 47.

(** ** scripts/escape-changelog.py *)

Module EscapeChangelog.

Definition special_chars : list char :=
  [backslash] ++ lit "_*[]()~`>#+-=|{}.!".

(** One turn of the loop: [text = text.replace(char, "\\" + char)]. *)
Definition escape_step (text : str) (c : char) : str :=
  replace [c] (backslash :: [c]) text.

Definition escape_markdown_v2 (text : str) : str :=
  fold_left escape_step special_chars text.

(** The text that [main] prints, from the text it has read. *)
Definition transform (text : str) : str :=
  let text := slice_to 3500 text in
  let escaped := escape_markdown_v2 text in
  let escaped := replace [newline] (lit "%0A") escaped in
  escaped.

End EscapeChangelog.

(** ** urllib.parse.quote *)

Module UrllibParse.

(** A byte, as a number below 256. *)
Definition byte := N.

(** [chr(c).encode('utf-8', 'strict')]: [None] stands for the
    UnicodeEncodeError that a surrogate raises (and is also the answer for a
    number that is no code point). *)
Definition encode_char (c : char) : option (list byte) :=
  if c <? 0x80 then Some [c]
  else if c <? 0x800 then
    Some [N.lor 0xC0 (N.shiftr c 6); N.lor 0x80 (N.land c 0x3F)]
  else if c <? 0x10000 then
    if (0xD800 <=? c) && (c <=? 0xDFFF) then None
    else Some [N.lor 0xE0 (N.shiftr c 12);
               N.lor 0x80 (N.land (N.shiftr c 6) 0x3F);
               N.lor 0x80 (N.land c 0x3F)]
  else if c <? 0x110000 then
    Some [N.lor 0xF0 (N.shiftr c 18);
          N.lor 0x80 (N.land (N.shiftr c 12) 0x3F);
          N.lor 0x80 (N.land (N.shiftr c 6) 0x3F);
          N.lor 0x80 (N.land c 0x3F)]
  else None.

(** [string.encode('utf-8', 'strict')]. *)
Fixpoint encode (s : str) : option (list byte) :=
  match s with
  | [] => Some []
  | c :: s' =>
      match encode_char c, encode s' with
      | Some b, Some bs => Some (b ++ bs)
      | _, _ => None
      end
  end.

(** The bytes that [quote] never encodes (the tilde is among them since
    Python 3.7). *)
Definition _ALWAYS_SAFE : list byte :=
  lit "ABCDEFGHIJKLMNOPQRSTUVWXYZabcdefghijklmnopqrstuvwxyz0123456789_.-~".

(** A digit of ['{:02X}'.format(b)]. *)
Definition hex_digit (d : N) : char :=
  if d <? 10 then 48 + d else 55 + d.

(** [_Quoter.__missing__]: the byte itself when it is safe, and otherwise
    ['%{:02X}'.format(b)]. *)
Definition quoter (safe : list byte) (b : byte) : str :=
  if mem b (_ALWAYS_SAFE ++ safe) then [b]
  else [percent; hex_digit (b / 16); hex_digit (b mod 16)].

(** [quote_from_bytes(bs, safe)]; the characters of [safe] that are not
    ASCII are ignored. *)
Definition quote_from_bytes (bs : list byte) (safe : str) : str :=
  let safe := filter (fun c => c <? 128) safe in
  flat_map (quoter safe) bs.

(** [quote(string, safe)], for a [str]. *)
Definition quote_with (safe : str) (string : str) : option str :=
  match encode string with
  | Some bs => Some (quote_from_bytes bs safe)
  | None => None
  end.

(** [quote(string)]: [safe] defaults to ['/']. *)
Definition quote : str -> option str := quote_with [slash].

End UrllibParse.

(** ** scripts/escape-markdown.py *)

Module EscapeMarkdown.

Definition special : list char :=
  [backslash] ++ lit "_*[]()~`>#+-=|{}.!".

Definition escape_step (text : str) (c : char) : str :=
  replace [c] (backslash :: [c]) text.

Definition escape_markdown_v2 (text : str) : str :=
  fold_left escape_step special text.

(** The text that [main] prints, from the text it has read; [None] when
    [quote] raises. *)
Definition transform (text : str) : option str :=
  let escaped := escape_markdown_v2 text in
  UrllibParse.quote escaped.

End EscapeMarkdown.

(** ** The process around [main] *)

Module Process.

(** An instance of [Exception]; [message] is [str(e)]. *)
Record PyException : Type := { message : str }.

(** What the process has written: what the devices behind standard output
    and standard error hold when the process has ended. *)
Record Streams : Type := { stdout : str; stderr : str }.

(** How a piece of code ends: it returns, it raises an exception, or
    [sys.exit] ends the process. *)
Inductive outcome (A : Type) : Type :=
| Returns (a : A)
| Raises (e : PyException)
| Exits (status : N).
Arguments Returns {A} a.
Arguments Raises {A} e.
Arguments Exits {A} status.

(** A device (a file on a disk that fills up, a pipe that is closed) that
    stops taking output: it takes [room] characters, and a write after that
    raises [error].  [buffer_size] is the size of the buffer that
    BufferedWriter puts before it (the block size of the file, 4096 on most
    file systems, or 8192).  The streams are modelled on their characters,
    one byte each, which is what ASCII text is made of. *)
Record Device : Type := {
  room : nat;
  buffer_size : nat;
  error : PyException
}.

(** What the scripts meet at run time, the interpreter running with its
    default settings: standard output, a file or a pipe, is block buffered,
    and standard error is line buffered.
    - [file_text]: what [open(path, 'r', encoding='utf-8')] followed by
      [f.read()] gives, the decoded text or the exception raised;
    - [stdout_fault]: [None] when standard output, a file or a pipe, takes
      everything; otherwise the device that stops taking output;
    - [stderr_fault]: [None] when standard error takes everything;
      [Some (k, e)] when it takes [k] characters and a write after that
      raises [e];
    - [encode_error s]: the UnicodeEncodeError that [s.encode('utf-8')]
      raises when [s] holds a surrogate;
    - [traceback e]: what the interpreter writes to standard error for an
      exception [e] that nothing has caught;
    - [unraisable e]: what the interpreter writes to standard error for an
      exception [e] that it ignores (['Exception ignored in: ...']). *)
Record Env : Type := {
  file_text : PyException + str;
  stdout_fault : option Device;
  stderr_fault : option (nat * PyException);
  encode_error : str -> PyException;
  traceback : PyException -> str;
  unraisable : PyException -> str
}.

(** The standard streams while the process runs: for standard output, what
    the device has taken, what BufferedWriter holds and what TextIOWrapper
    holds ([None] when it holds nothing, not even an empty string); for
    standard error, which is line buffered, what the device has taken and
    whether a write has failed and left text in its buffer. *)
Record World : Type := {
  out_device : str;
  out_buffer : str;
  out_pending : option str;
  err_device : str;
  err_failed : bool
}.

Definition start : World :=
  {| out_device := []; out_buffer := []; out_pending := None;
     err_device := []; err_failed := false |}.

Definition streams (w : World) : Streams :=
  {| stdout := out_device w; stderr := err_device w |}.

(** Code that writes to the streams, run in the environment [env]. *)
Definition io (env : Env) (A : Type) : Type := World -> outcome A * World.

(** [self->chunk_size] of TextIOWrapper. *)
Definition chunk_size : nat := 2 * 4096.

Definition set_out (device buffer : str) (pending : option str) (w : World)
  : World :=
  {| out_device := device; out_buffer := buffer; out_pending := pending;
     err_device := err_device w; err_failed := err_failed w |}.

(** The state that a write to standard output leaves, failed or not. *)
Definition world_of (r : PyException * World + World) : World :=
  match r with
  | inl (_, w) => w
  | inr w => w
  end.

Section WithEnv.

Variable env : Env.

Definition ret {A} (a : A) : io env A := fun w => (Returns a, w).

Definition raise {A} (e : PyException) : io env A := fun w => (Raises e, w).

Definition bind {A B} (m : io env A) (k : A -> io env B) : io env B :=
  fun w =>
    match m w with
    | (Returns a, w') => k a w'
    | (Raises e, w') => (Raises e, w')
    | (Exits n, w') => (Exits n, w')
    end.

(** [try: body except Exception as e: handler(e)]. *)
Definition try_except {A} (body : io env A)
  (handler : PyException -> io env A) : io env A :=
  fun w =>
    match body w with
    | (Raises e, w') => handler e w'
    | r => r
    end.

Notation "x <- m ;; k" := (bind m (fun x => k))
  (at level 61, m at next level, right associativity).
Notation "m ;;; k" := (bind m (fun _ => k))
  (at level 61, right associativity).

Definition read_file : io env str :=
  match file_text env with
  | inl e => raise e
  | inr text => ret text
  end.

(** The size of BufferedWriter's buffer for standard output. *)
Definition out_buffer_size : nat :=
  match stdout_fault env with
  | Some d => buffer_size d
  | None => chunk_size
  end.

(** [os.write] on standard output: the device takes what it has room for
    and says how much it took, or raises when it has no room. *)
Definition raw_write (data : str) (w : World)
  : PyException + (nat * World) :=
  match stdout_fault env with
  | None =>
      inr (List.length data,
           set_out (out_device w ++ data) (out_buffer w) (out_pending w) w)
  | Some d =>
      match data, (room d - List.length (out_device w))%nat with
      | [], _ => inr (O, w)
      | _ :: _, O => inl (error d)
      | _ :: _, S _ as left =>
          let n := Nat.min left (List.length data) in
          inr (n,
               set_out (out_device w ++ firstn n data) (out_buffer w)
                 (out_pending w) w)
      end
  end.

(** [_bufferedwriter_flush_unlocked]: the buffer is written to the device,
    in as many writes as it takes; what a failed write leaves stays in the
    buffer.  [fuel] bounds the number of writes. *)
Fixpoint flush_buffer (fuel : nat) (w : World) : PyException * World + World :=
  match out_buffer w with
  | [] => inr w
  | _ :: _ =>
      match fuel with
      | O => inr w
      | S fuel' =>
          match raw_write (out_buffer w) w with
          | inl e => inl (e, w)
          | inr (n, w') =>
              flush_buffer fuel'
                (set_out (out_device w') (skipn n (out_buffer w))
                   (out_pending w') w')
          end
      end
  end.

(** The end of [BufferedWriter.write], with the buffer emptied: as long as
    what remains is larger than the buffer it is written to the device;
    the rest is copied into the buffer.  What a failed write leaves is
    dropped. *)
Fixpoint write_through (fuel : nat) (data : str) (w : World)
  : PyException * World + World :=
  if (List.length data <=? out_buffer_size)%nat
  then inr (set_out (out_device w) data (out_pending w) w)
  else
    match fuel with
    | O => inr w
    | S fuel' =>
        match raw_write data w with
        | inl e => inl (e, w)
        | inr (n, w') => write_through fuel' (skipn n data) w'
        end
    end.

(** [BufferedWriter.write(data)]: data that fits into the buffer is copied
    there; otherwise the buffer is flushed and the data written through. *)
Definition buffer_write (data : str) (w : World)
  : PyException * World + World :=
  if (List.length data
      <=? out_buffer_size - List.length (out_buffer w))%nat
  then inr (set_out (out_device w) (out_buffer w ++ data) (out_pending w) w)
  else
    match flush_buffer (List.length (out_buffer w)) w with
    | inl failed => inl failed
    | inr w' => write_through (List.length data) data w'
    end.

(** [_textiowrapper_writeflush]: the pending text is handed to
    BufferedWriter, and is no longer pending whether that fails or not. *)
Definition write_flush (w : World) : PyException * World + World :=
  match out_pending w with
  | None => inr w
  | Some pending =>
      buffer_write pending (set_out (out_device w) (out_buffer w) None w)
  end.

(** [sys.stdout.write(text)], standard output being block buffered: the text
    is added to the pending text, which is flushed before when both would
    exceed [chunk_size], and after when it has reached [chunk_size]. *)
Definition stdout_write (text : str) : io env unit :=
  fun w =>
    let added :=
      match out_pending w with
      | None => inr (set_out (out_device w) (out_buffer w) (Some text) w)
      | Some pending =>
          if (chunk_size <? List.length pending + List.length text)%nat
          then
            match write_flush w with
            | inl failed => inl failed
            | inr w' =>
                inr (set_out (out_device w') (out_buffer w') (Some text) w')
            end
          else
            inr (set_out (out_device w) (out_buffer w)
                   (Some (pending ++ text)) w)
      end in
    match added with
    | inl (e, w') => (Raises e, w')
    | inr w' =>
        match out_pending w' with
        | Some pending =>
            if (chunk_size <=? List.length pending)%nat
            then
              match write_flush w' with
              | inl (e, w'') => (Raises e, w'')
              | inr w'' => (Returns tt, w'')
              end
            else (Returns tt, w')
        | None => (Returns tt, w')
        end
    end.

(** [print(s)]: [s] is written, then the newline. *)
Definition print (s : str) : io env unit :=
  stdout_write s ;;; stdout_write [newline].

(** [sys.stdout.flush()]: the pending text goes to BufferedWriter, whose
    buffer goes to the device. *)
Definition stdout_flush (w : World) : PyException * World + World :=
  match write_flush w with
  | inl failed => inl failed
  | inr w' => flush_buffer (List.length (out_buffer w')) w'
  end.

(** A write to standard error that ends with a newline.  Standard error is
    line buffered, so the text is on its way to the device before the write
    returns: the device takes what it has room for, and the write raises
    when that is not all of it; the rest stays in the buffer. *)
Definition stderr_write (text : str) : io env unit :=
  fun w =>
    match stderr_fault env with
    | None =>
        (Returns tt,
         {| out_device := out_device w; out_buffer := out_buffer w;
            out_pending := out_pending w;
            err_device := err_device w ++ text;
            err_failed := err_failed w |})
    | Some (k, e) =>
        let left := (k - List.length (err_device w))%nat in
        if (List.length text <=? left)%nat
        then
          (Returns tt,
           {| out_device := out_device w; out_buffer := out_buffer w;
              out_pending := out_pending w;
              err_device := err_device w ++ text;
              err_failed := err_failed w |})
        else
          (Raises e,
           {| out_device := out_device w; out_buffer := out_buffer w;
              out_pending := out_pending w;
              err_device := err_device w ++ firstn left text;
              err_failed := true |})
    end.

(** [print(s, file=sys.stderr)]. *)
Definition print_stderr (s : str) : io env unit :=
  stderr_write (s ++ [newline]).

(** [sys.exit(status)]. *)
Definition sys_exit {A} (status : N) : io env A := fun w => (Exits status, w).

(** The handler of both scripts. *)
Definition report (e : PyException) : io env unit :=
  print_stderr (lit "Error: " ++ message e) ;;;
  sys_exit 1.

(** [main] of scripts/escape-changelog.py. *)
Definition changelog_main : io env unit :=
  try_except
    (text <- read_file ;;
     let text := slice_to 3500 text in
     let escaped := EscapeChangelog.escape_markdown_v2 text in
     let escaped := replace [newline] (lit "%0A") escaped in
     print escaped)
    report.

(** [main] of scripts/escape-markdown.py. *)
Definition markdown_main : io env unit :=
  try_except
    (text <- read_file ;;
     let escaped := EscapeMarkdown.escape_markdown_v2 text in
     encoded <- match UrllibParse.quote escaped with
                | Some encoded => ret encoded
                | None => raise (encode_error env escaped)
                end ;;
     print encoded)
    report.

(** [flush_io], which the interpreter calls when the script has ended,
    however it ended: the standard streams are flushed and a failure is
    ignored.  For standard error, whose buffer keeps what a failed write
    left, this changes nothing. *)
Definition flush_io (w : World) : World := world_of (stdout_flush w).

(** The run of a script, [main()] being all it does: what the devices hold
    at the end and the exit status.  When [main] has ended the interpreter
    calls [flush_io]; the status is then 0 when [main] returned and the
    status of [sys.exit], and an exception that left [main] gives its
    traceback on standard error and status 1.  At last the interpreter
    flushes the standard streams once more: when that fails for standard
    output the exception is reported on standard error as ignored, and
    when it fails for either stream the status is 120. *)
Definition run (main : io env unit) : Streams * N :=
  let '(ended, w) := main start in
  let w := flush_io w in
  let '(status, w) :=
    match ended with
    | Returns _ => (0, w)
    | Exits n => (n, w)
    | Raises e => (1, snd (stderr_write (traceback env e) w))
    end in
  match stdout_flush w with
  | inl (e, w') => (streams (snd (stderr_write (unraisable env e) w')), 120)
  | inr w' => (streams w', if err_failed w' then 120 else status)
  end.

End WithEnv.

Arguments run {env} main.

End Process.

(** ** sync_readme.py *)

Module SyncReadme.

Definition placeholder : str :=
  lit "Sync README.md content from https://github.com/koiverse/ArchiveTune raw.".

(** [new_content = content.replace(placeholder, raw_content)]. *)
Definition new_content (content raw_content : str) : str :=
  replace placeholder raw_content content.

End SyncReadme.

(** ** The escaper of the specification *)

(** The reserved characters as the specification lists them: backslash,
    underscore, asterisk, square and round brackets, tilde, backtick,
    angle-close, hash, plus, hyphen, equals, pipe, braces, period and
    exclamation. *)
Definition reserved : list char :=
  [92; 95; 42; 91; 93; 40; 41; 126; 96; 62; 35; 43; 45; 61; 124; 123; 125;
   46; 33].

Definition is_reserved (c : char) : bool := mem c reserved.

(** The escaper in the specification's words: one scan of the original
    text that puts a backslash before every reserved character and copies
    every other character. *)
Definition escape_one_pass (s : str) : str :=
  flat_map (fun c => if is_reserved c then [backslash; c] else [c]) s.

(** The number of reserved characters of a text. *)
Definition count_reserved (s : str) : nat :=
  List.length (filter is_reserved s).

(** The newline substitution in the specification's words: every newline
    becomes [%0A], every other character is copied. *)
Definition newline_to_pct (s : str) : str :=
  flat_map (fun c => if c =? newline then lit "%0A" else [c]) s.

(** The loop of [escape_markdown_v2] in both scripts, for any list [cs] of
    characters to escape. *)
Definition escape_loop (cs : list char) (text : str) : str :=
  fold_left (fun text c => replace [c] [backslash; c] text) cs text.

(** No reserved character occurs in [s]. *)
Definition reserved_free (s : str) : bool :=
  forallb (fun c => negb (is_reserved c)) s.

(** ** Percent-encoding in the specification's words *)

(** The reserved characters of a URL (RFC 3986: the general and the
    sub-delimiters). *)
Definition url_reserved : list char := lit ":/?#[]@!$&'()*+,;=".

(** The percent-encoded form of an ASCII character: [%] and its code in two
    upper-case hexadecimal digits. *)
Definition pct_encoded (c : char) : str :=
  [percent; UrllibParse.hex_digit (c / 16); UrllibParse.hex_digit (c mod 16)].

(** Two results of [quote], one after the other. *)
Definition option_app (a b : option str) : option str :=
  match a, b with
  | Some x, Some y => Some (x ++ y)
  | _, _ => None
  end.

(** ** Placeholder substitution *)

(** [sep.join(parts)]. *)
Fixpoint join (sep : str) (parts : list str) : str :=
  match parts with
  | [] => []
  | p :: ps =>
      match ps with
      | [] => p
      | _ :: _ => p ++ sep ++ join sep ps
      end
  end.

(** No occurrence of [old] in [p ++ rest] starts within [p]. *)
Fixpoint no_start (old p rest : str) : bool :=
  match p with
  | [] => true
  | _ :: p' => negb (startswith old (p ++ rest)) && no_start old p' rest
  end.

(** The replacement of the first occurrence only: what a single
    substitution of one occurrence would give. *)
Fixpoint replace_first (old new s : str) : str :=
  match s with
  | [] => []
  | c :: s' =>
      if startswith old s then new ++ skipn (List.length old) s
      else c :: replace_first old new s'
  end.

(** ** The error report in the specification's words *)

(** The line [Error: <message>] on standard error. *)
Definition error_line (e : Process.PyException) : str :=
  lit "Error: " ++ Process.message e ++ [newline].

(** What the interpreter writes about exceptions, in short. *)
Definition short_traceback (e : Process.PyException) : str :=
  lit "Traceback: " ++ Process.message e ++ [newline].

Definition short_unraisable (e : Process.PyException) : str :=
  lit "Exception ignored: " ++ Process.message e ++ [newline].

(** A run with a text in the file and working streams. *)
Definition working (text : str) : Process.Env :=
  {| Process.file_text := inr text;
     Process.stdout_fault := None;
     Process.stderr_fault := None;
     Process.encode_error :=
       fun _ => {| Process.message := lit "surrogates not allowed" |};
     Process.traceback := short_traceback;
     Process.unraisable := short_unraisable |}.

(** A run in which the file is missing. *)
Definition missing_file : Process.Env :=
  {| Process.file_text := inl {| Process.message := lit "No such file" |};
     Process.stdout_fault := None;
     Process.stderr_fault := None;
     Process.encode_error :=
       fun _ => {| Process.message := lit "surrogates not allowed" |};
     Process.traceback := short_traceback;
     Process.unraisable := short_unraisable |}.

(** A run in which standard output is a file, behind a buffer of 4096
    characters, on a disk that has room for [room] characters. *)
Definition disk_with_room (text : str) (room : nat) : Process.Env :=
  {| Process.file_text := inr text;
     Process.stdout_fault :=
       Some {| Process.room := room;
               Process.buffer_size := 4096;
               Process.error :=
                 {| Process.message :=
                      lit "[Errno 28] No space left on device" |} |};
     Process.stderr_fault := None;
     Process.encode_error :=
       fun _ => {| Process.message := lit "surrogates not allowed" |};
     Process.traceback := short_traceback;
     Process.unraisable := short_unraisable |}.

(** A run in which the file is missing and standard error takes nothing. *)
Definition missing_file_no_stderr : Process.Env :=
  {| Process.file_text := inl {| Process.message := lit "No such file" |};
     Process.stdout_fault := None;
     Process.stderr_fault :=
       Some (O, {| Process.message :=
                     lit "[Errno 28] No space left on device" |});
     Process.encode_error :=
       fun _ => {| Process.message := lit "surrogates not allowed" |};
     Process.traceback := short_traceback;
     Process.unraisable := short_unraisable |}.

(** ** Readers of the escaped text *)

(** The reading of an escaped text: a backslash is dropped and the
    character after it is taken as it is.  The scripts have no such
    function; it is what the reader of their output does. *)
Fixpoint unescape (s : str) : str :=
  match s with
  | [] => []
  | c :: s' =>
      if c =? backslash then
        match s' with
        | [] => [c]
        | d :: s'' => d :: unescape s''
        end
      else c :: unescape s'
  end.

(** A text in which every reserved character is escaped: it is made of
    characters that are not reserved and of pairs of a backslash and a
    reserved character. *)
Fixpoint well_escaped (s : str) : bool :=
  match s with
  | [] => true
  | c :: s' =>
      if c =? backslash then
        match s' with
        | [] => false
        | d :: s'' => is_reserved d && well_escaped s''
        end
      else negb (is_reserved c) && well_escaped s'
  end.

(** A Unicode scalar value: a code point that is no surrogate.  These are
    the characters that decoding UTF-8 gives. *)
Definition scalar (c : char) : bool :=
  (c <? 0xD800) || ((0xDFFF <? c) && (c <? 0x110000)).

(** The characters that [quote] can print: the always safe ones, the slash
    and the percent sign. *)
Definition quoted_alphabet : list char :=
  UrllibParse._ALWAYS_SAFE ++ [slash; percent].

(** ** Readings of the state of the streams *)

(** All that standard output has been given and not dropped, in order: what
    the device has taken, then what the two buffers hold. *)
Definition out_total (w : Process.World) : str :=
  Process.out_device w ++ Process.out_buffer w ++
  match Process.out_pending w with
  | Some pending => pending
  | None => []
  end.

(** Two states with the same standard error. *)
Definition same_err (w w' : Process.World) : Prop :=
  Process.err_device w' = Process.err_device w /\
  Process.err_failed w' = Process.err_failed w.

(** Two states with the same standard output. *)
Definition same_out (w w' : Process.World) : Prop :=
  Process.out_device w' = Process.out_device w /\
  Process.out_buffer w' = Process.out_buffer w /\
  Process.out_pending w' = Process.out_pending w.

(** * Properties *)

(** ** [str.replace] *)

Section Replace.

Lemma startswith_app (old rest : str) : startswith old (old ++ rest) = true.
Proof.
  induction old as [|a old IH]; simpl; [reflexivity|].
  now rewrite N.eqb_refl, IH.
Qed.

Lemma startswith_split (old s : str) :
  startswith old s = true -> s = old ++ skipn (List.length old) s.
Proof.
  revert s; induction old as [|a old IH]; intros [|b s]; simpl;
    try reflexivity; try discriminate.
  intros H. apply andb_true_iff in H as [Hab Hrest].
  apply N.eqb_eq in Hab. subst b. f_equal. now apply IH.
Qed.

(** Passing over [k] characters is dropping them. *)
Lemma replace_from_skipn (k : nat) (old new s : str) :
  replace_from k old new s = replace_from 0 old new (skipn k s).
Proof.
  revert s; induction k as [|k IH]; intros s; [reflexivity|].
  destruct s as [|c s]; [reflexivity|]. simpl. apply IH.
Qed.

(** An occurrence at the head is replaced and the scan goes on after it. *)
Lemma replace_head (old new rest : str) :
  old <> [] ->
  replace old new (old ++ rest) = new ++ replace old new rest.
Proof.
  destruct old as [|a old]; [congruence|]. intros _.
  unfold replace.
  change (replace_from 0 (a :: old) new ((a :: old) ++ rest))
    with (if startswith (a :: old) ((a :: old) ++ rest)
          then new ++ replace_from (List.length (a :: old) - 1) (a :: old)
                        new (old ++ rest)
          else a :: replace_from 0 (a :: old) new (old ++ rest)).
  rewrite startswith_app, replace_from_skipn.
  assert (Hlen : (List.length (a :: old) - 1)%nat = List.length old)
    by (simpl; lia).
  rewrite Hlen, skipn_app, skipn_all, Nat.sub_diag.
  reflexivity.
Qed.

(** A character that starts no occurrence is copied. *)
Lemma replace_copy (old new : str) (c : char) (s : str) :
  old <> [] -> startswith old (c :: s) = false ->
  replace old new (c :: s) = c :: replace old new s.
Proof.
  destruct old as [|a old]; [congruence|]. intros _ H.
  unfold replace.
  change (replace_from 0 (a :: old) new (c :: s))
    with (if startswith (a :: old) (c :: s)
          then new ++ replace_from (List.length (a :: old) - 1) (a :: old)
                        new s
          else c :: replace_from 0 (a :: old) new s).
  now rewrite H.
Qed.

Lemma replace_nil (old new : str) : old <> [] -> replace old new [] = [].
Proof. destruct old; [congruence|reflexivity]. Qed.

(** Replacing one character is a character-wise substitution. *)
Lemma replace_char (c : char) (new s : str) :
  replace [c] new s = flat_map (fun x => if x =? c then new else [x]) s.
Proof.
  induction s as [|x s IH]; [reflexivity|].
  cbn [flat_map]. destruct (N.eqb_spec x c) as [->|Hne].
  - change (c :: s) with ([c] ++ s).
    rewrite replace_head by discriminate. now rewrite IH.
  - rewrite replace_copy; [now rewrite IH | discriminate |].
    simpl. apply andb_false_iff. left. apply N.eqb_neq. congruence.
Qed.

Lemma replace_char_app (c : char) (new s t : str) :
  replace [c] new (s ++ t) = replace [c] new s ++ replace [c] new t.
Proof. rewrite !replace_char. apply flat_map_app. Qed.

Lemma replace_char_absent (c : char) (new s : str) :
  ~ In c s -> replace [c] new s = s.
Proof.
  rewrite replace_char. induction s as [|x s IH]; [reflexivity|].
  intros H. cbn [flat_map]. destruct (N.eqb_spec x c) as [->|_].
  - exfalso. apply H. now left.
  - simpl. f_equal. apply IH. intros Hin. apply H. now right.
Qed.

End Replace.

(** ** The loop of [escape_markdown_v2], over any list of characters *)

Section EscapeLoop.

Lemma escape_loop_app (cs : list char) (s t : str) :
  escape_loop cs (s ++ t) = escape_loop cs s ++ escape_loop cs t.
Proof.
  unfold escape_loop. revert s t.
  induction cs as [|c cs IH]; intros s t; [reflexivity|].
  cbn [fold_left]. now rewrite replace_char_app, IH.
Qed.

Lemma escape_loop_nil (cs : list char) : escape_loop cs [] = [].
Proof.
  unfold escape_loop. induction cs as [|c cs IH]; [reflexivity|]. exact IH.
Qed.

(** The loop works character by character. *)
Lemma escape_loop_flat_map (cs : list char) (s : str) :
  escape_loop cs s = flat_map (fun x => escape_loop cs [x]) s.
Proof.
  induction s as [|x s IH]; [apply escape_loop_nil|].
  change (x :: s) with ([x] ++ s).
  rewrite escape_loop_app, IH. reflexivity.
Qed.

(** A text that holds none of the characters of [cs] is left as it is. *)
Lemma escape_loop_fixed (cs : list char) (s : str) :
  (forall x, In x s -> ~ In x cs) -> escape_loop cs s = s.
Proof.
  unfold escape_loop. induction cs as [|c cs IH]; intros H; [reflexivity|].
  cbn [fold_left]. rewrite replace_char_absent.
  - apply IH. intros x Hx Hin. apply (H x Hx). now right.
  - intros Hin. apply (H c Hin). now left.
Qed.

Lemma mem_In (x : char) (l : list char) : mem x l = true <-> In x l.
Proof.
  unfold mem. rewrite existsb_exists. split.
  - intros [y [Hy Heq]]. apply N.eqb_eq in Heq. now subst.
  - intros H. exists x. split; [exact H | apply N.eqb_refl].
Qed.

Lemma mem_not_In (x : char) (l : list char) : mem x l = false <-> ~ In x l.
Proof.
  rewrite <- mem_In. destruct (mem x l); split; congruence.
Qed.

(** What the loop makes of one character, when the characters of [cs] are
    distinct and the backslash is nowhere but at the head of [cs]: the
    backslash that a later turn inserts is then never escaped again. *)
Lemma escape_loop_char (cs : list char) (x : char) :
  NoDup cs -> ~ In backslash (tl cs) ->
  escape_loop cs [x] = if mem x cs then [backslash; x] else [x].
Proof.
  induction cs as [|c cs IH]; intros Hnd Hbs; [reflexivity|].
  inversion Hnd as [|? ? Hc Hnd']; subst.
  change (escape_loop (c :: cs) [x])
    with (escape_loop cs (replace [c] [backslash; c] [x])).
  rewrite replace_char. unfold mem. cbn [flat_map existsb app].
  destruct (N.eqb_spec x c) as [->|Hne]; cbn [orb app].
  - apply escape_loop_fixed. intros y [<-|[<-|[]]]; assumption.
  - apply IH; [exact Hnd'|]. intros Hin. apply Hbs.
    destruct cs; [destruct Hin | now right].
Qed.

(** On such a list the loop is the one-pass escaper for that list. *)
Lemma escape_loop_one_pass (cs : list char) (s : str) :
  NoDup cs -> ~ In backslash (tl cs) ->
  escape_loop cs s =
  flat_map (fun x => if mem x cs then [backslash; x] else [x]) s.
Proof.
  intros Hnd Hbs. rewrite escape_loop_flat_map.
  apply flat_map_ext. intros x. now apply escape_loop_char.
Qed.

End EscapeLoop.

(** ** [escape_markdown_v2] *)

Section EscapeMarkdownV2.

Lemma reserved_NoDup : NoDup reserved.
Proof.
  apply (NoDup_count_occ' N.eq_dec). intros x Hx.
  repeat (destruct Hx as [<-|Hx]; [reflexivity|]). destruct Hx.
Qed.

Lemma reserved_backslash_first : ~ In backslash (tl reserved).
Proof. apply mem_not_In. reflexivity. Qed.

Lemma changelog_escape_loop (s : str) :
  EscapeChangelog.escape_markdown_v2 s = escape_loop reserved s.
Proof. reflexivity. Qed.

Lemma markdown_escape_loop (s : str) :
  EscapeMarkdown.escape_markdown_v2 s = escape_loop reserved s.
Proof. reflexivity. Qed.

Lemma changelog_escape_one_pass (s : str) :
  EscapeChangelog.escape_markdown_v2 s = escape_one_pass s.
Proof.
  rewrite changelog_escape_loop.
  apply escape_loop_one_pass;
    [apply reserved_NoDup | apply reserved_backslash_first].
Qed.

Lemma markdown_escape_one_pass (s : str) :
  EscapeMarkdown.escape_markdown_v2 s = escape_one_pass s.
Proof.
  rewrite markdown_escape_loop.
  apply escape_loop_one_pass;
    [apply reserved_NoDup | apply reserved_backslash_first].
Qed.

Lemma escape_one_pass_app (s t : str) :
  escape_one_pass (s ++ t) = escape_one_pass s ++ escape_one_pass t.
Proof. apply flat_map_app. Qed.

Lemma escape_one_pass_length (s : str) :
  List.length (escape_one_pass s) = (List.length s + count_reserved s)%nat.
Proof.
  unfold escape_one_pass, count_reserved.
  induction s as [|c s IH]; [reflexivity|].
  cbn [flat_map filter]. rewrite length_app, IH.
  destruct (is_reserved c); simpl; lia.
Qed.

Lemma escape_one_pass_free (s : str) :
  (forall c, In c s -> is_reserved c = false) -> escape_one_pass s = s.
Proof.
  unfold escape_one_pass. induction s as [|c s IH]; intros H; [reflexivity|].
  cbn [flat_map]. rewrite (H c) by now left.
  simpl. f_equal. apply IH. intros x Hx. apply H. now right.
Qed.

Lemma count_reserved_app (s t : str) :
  count_reserved (s ++ t) = (count_reserved s + count_reserved t)%nat.
Proof. unfold count_reserved. now rewrite filter_app, length_app. Qed.

(** An escaped reserved character leaves a backslash, itself reserved. *)
Lemma count_reserved_escaped (s : str) (c : char) :
  In c s -> is_reserved c = true ->
  (0 < count_reserved (escape_one_pass s))%nat.
Proof.
  intros Hin Hc. apply in_split in Hin as [a [b ->]].
  change (c :: b) with ([c] ++ b).
  rewrite !escape_one_pass_app, !count_reserved_app.
  unfold escape_one_pass at 2. cbn [flat_map]. rewrite Hc.
  unfold count_reserved at 2. cbn [app filter].
  change (is_reserved backslash) with true. simpl. lia.
Qed.

End EscapeMarkdownV2.

Section EscapeClaims.

Lemma reserved_free_spec (s : str) :
  reserved_free s = true <-> (forall c, In c reserved -> ~ In c s).
Proof.
  unfold reserved_free. rewrite forallb_forall. split.
  - intros H c Hc Hs. specialize (H c Hs).
    apply negb_true_iff in H. apply mem_not_In in H. contradiction.
  - intros H c Hs. apply negb_true_iff. apply mem_not_In.
    intros Hc. exact (H c Hc Hs).
Qed.

Lemma escape_free (s : str) :
  (forall c, In c reserved -> ~ In c s) ->
  EscapeChangelog.escape_markdown_v2 s = s.
Proof.
  intros H. rewrite changelog_escape_one_pass.
  apply escape_one_pass_free. intros c Hc.
  apply mem_not_In. intros Hr. exact (H c Hr Hc).
Qed.

(** C1: in both scripts [escape_markdown_v2] puts exactly one backslash
    before every occurrence of a reserved character and copies every other
    character (it is the one-pass escaper over the 19 reserved characters),
    and it turns a single reserved character [c] into the backslash followed
    by [c]. *)
Theorem escape_markdown_v2_one_backslash :
  EscapeChangelog.special_chars = reserved /\
  EscapeMarkdown.special = reserved /\
  List.length reserved = 19%nat /\
  (forall s,
      EscapeChangelog.escape_markdown_v2 s = escape_one_pass s /\
      EscapeMarkdown.escape_markdown_v2 s = escape_one_pass s) /\
  (forall c, In c reserved ->
      EscapeChangelog.escape_markdown_v2 [c] = [backslash; c] /\
      EscapeMarkdown.escape_markdown_v2 [c] = [backslash; c]).
Proof.
  repeat split.
  - apply changelog_escape_one_pass.
  - apply markdown_escape_one_pass.
  - rewrite changelog_escape_one_pass. unfold escape_one_pass, is_reserved.
    cbn [flat_map]. apply mem_In in H. rewrite H. reflexivity.
  - rewrite markdown_escape_one_pass. unfold escape_one_pass, is_reserved.
    cbn [flat_map]. apply mem_In in H. rewrite H. reflexivity.
Qed.

Lemma escape_markdown_v2_one_backslash_witness :
  EscapeChangelog.escape_markdown_v2 [underscore] = [backslash; underscore] /\
  EscapeMarkdown.escape_markdown_v2 [underscore] = [backslash; underscore].
Proof.
  apply (proj2 (proj2 (proj2 (proj2 escape_markdown_v2_one_backslash)))
           underscore).
  simpl. right. left. reflexivity.
Defined.

(** C2: the backslash is the first character that [escape_markdown_v2]
    escapes and it is escaped by no later turn, so a backslash followed by
    an underscore becomes backslash, backslash, backslash, underscore, and
    not backslash, backslash, underscore. *)
Theorem escape_backslash_first :
  hd_error EscapeChangelog.special_chars = Some backslash /\
  mem backslash (tl EscapeChangelog.special_chars) = false /\
  EscapeChangelog.escape_markdown_v2 [backslash; underscore]
    = [backslash; backslash; backslash; underscore] /\
  EscapeChangelog.escape_markdown_v2 [backslash; underscore]
    <> [backslash; backslash; underscore].
Proof.
  repeat split. discriminate.
Qed.

(** C3: [escape_markdown_v2] returns a text that holds no reserved
    character as it is, and the empty text in particular. *)
Theorem escape_identity_on_reserved_free :
  (forall s, (forall c, In c reserved -> ~ In c s) ->
             EscapeChangelog.escape_markdown_v2 s = s) /\
  EscapeChangelog.escape_markdown_v2 [] = [].
Proof.
  split; [exact escape_free | reflexivity].
Qed.

Lemma escape_identity_on_reserved_free_witness :
  EscapeChangelog.escape_markdown_v2 (lit "Fixed bug in v1") =
  lit "Fixed bug in v1".
Proof.
  apply (proj1 escape_identity_on_reserved_free).
  apply reserved_free_spec. reflexivity.
Defined.

(** C4: [escape_markdown_v2] is idempotent on the texts that hold no
    reserved character and on no other text: escaping an escaped text that
    held a reserved character escapes the backslashes of the first pass. *)
Theorem escape_idempotent_iff_reserved_free :
  (forall s, (forall c, In c reserved -> ~ In c s) ->
     EscapeChangelog.escape_markdown_v2 (EscapeChangelog.escape_markdown_v2 s)
     = EscapeChangelog.escape_markdown_v2 s) /\
  (forall s c, In c reserved -> In c s ->
     EscapeChangelog.escape_markdown_v2 (EscapeChangelog.escape_markdown_v2 s)
     <> EscapeChangelog.escape_markdown_v2 s).
Proof.
  split.
  - intros s H. now rewrite !(escape_free s H).
  - intros s c Hc Hs Heq. apply (f_equal (@List.length char)) in Heq.
    rewrite !changelog_escape_one_pass in Heq.
    rewrite (escape_one_pass_length (escape_one_pass s)) in Heq.
    assert (0 < count_reserved (escape_one_pass s))%nat
      by (apply (count_reserved_escaped s c Hs); now apply mem_In).
    lia.
Qed.

Lemma escape_idempotent_iff_reserved_free_witness :
  EscapeChangelog.escape_markdown_v2
    (EscapeChangelog.escape_markdown_v2 (lit "abc"))
  = EscapeChangelog.escape_markdown_v2 (lit "abc") /\
  EscapeChangelog.escape_markdown_v2
    (EscapeChangelog.escape_markdown_v2 (lit "a_b"))
  <> EscapeChangelog.escape_markdown_v2 (lit "a_b").
Proof.
  split.
  - apply (proj1 escape_idempotent_iff_reserved_free).
    apply reserved_free_spec. reflexivity.
  - apply (proj2 escape_idempotent_iff_reserved_free (lit "a_b") underscore).
    + simpl. right. left. reflexivity.
    + simpl. right. left. reflexivity.
Defined.

(** C10: in both scripts [escape_markdown_v2] distributes over
    concatenation, and the escaped text is longer than the text by the
    number of its reserved characters. *)
Theorem escape_markdown_v2_concat :
  (forall s t,
      EscapeChangelog.escape_markdown_v2 (s ++ t) =
      EscapeChangelog.escape_markdown_v2 s ++
      EscapeChangelog.escape_markdown_v2 t) /\
  (forall s t,
      EscapeMarkdown.escape_markdown_v2 (s ++ t) =
      EscapeMarkdown.escape_markdown_v2 s ++
      EscapeMarkdown.escape_markdown_v2 t) /\
  (forall s,
      List.length (EscapeChangelog.escape_markdown_v2 s) =
      (List.length s + count_reserved s)%nat) /\
  (forall s,
      List.length (EscapeMarkdown.escape_markdown_v2 s) =
      (List.length s + count_reserved s)%nat).
Proof.
  repeat split; intros.
  - apply (escape_loop_app reserved).
  - apply (escape_loop_app reserved).
  - rewrite changelog_escape_one_pass. apply escape_one_pass_length.
  - rewrite markdown_escape_one_pass. apply escape_one_pass_length.
Qed.

End EscapeClaims.

(** ** The changelog script: truncation and newlines *)

Section Changelog.

Lemma newline_step (s : str) :
  replace [newline] (lit "%0A") s = newline_to_pct s.
Proof. apply replace_char. Qed.

Lemma newline_to_pct_app (s t : str) :
  newline_to_pct (s ++ t) = newline_to_pct s ++ newline_to_pct t.
Proof. apply flat_map_app. Qed.

Lemma changelog_transform_eq (text : str) :
  EscapeChangelog.transform text =
  newline_to_pct (EscapeChangelog.escape_markdown_v2 (firstn 3500 text)).
Proof. unfold EscapeChangelog.transform, slice_to. apply newline_step. Qed.

(** C5: the changelog script cuts the text it has read to its first 3500
    characters and escapes what is left: a longer text is cut to exactly
    3500 characters, a text of at most 3500 characters is not cut, and the
    escaped text can be longer than 3500 and than 4096 characters. *)
Theorem changelog_truncates_before_escaping :
  (forall text,
      EscapeChangelog.transform text =
      replace [newline] (lit "%0A")
        (EscapeChangelog.escape_markdown_v2 (slice_to 3500 text))) /\
  (forall text, (3500 < List.length text)%nat ->
      List.length (slice_to 3500 text) = 3500%nat /\
      exists rest, rest <> [] /\ text = slice_to 3500 text ++ rest) /\
  (forall text, (List.length text <= 3500)%nat -> slice_to 3500 text = text) /\
  (exists text,
      (3500 < List.length text)%nat /\
      (4096 < List.length
                (EscapeChangelog.escape_markdown_v2 (slice_to 3500 text)))%nat /\
      (4096 < List.length (EscapeChangelog.transform text))%nat).
Proof.
  split; [reflexivity|]. split; [|split].
  - intros text Hlen. unfold slice_to. split.
    + rewrite length_firstn. lia.
    + exists (skipn 3500 text). split.
      * intros Hnil. apply (f_equal (@List.length char)) in Hnil.
        rewrite length_skipn in Hnil. simpl in Hnil. lia.
      * symmetry. apply firstn_skipn.
  - intros text Hlen. unfold slice_to. now apply firstn_all2.
  - exists (repeat underscore 3501). repeat split.
    + rewrite repeat_length. lia.
    + apply Nat.ltb_lt. vm_compute. reflexivity.
    + apply Nat.ltb_lt. vm_compute. reflexivity.
Qed.

Lemma changelog_truncates_before_escaping_witness :
  List.length (slice_to 3500 (repeat underscore 3600)) = 3500%nat /\
  slice_to 3500 (lit "v1.2.3") = lit "v1.2.3".
Proof.
  split.
  - apply (proj1 (proj2 changelog_truncates_before_escaping)
             (repeat underscore 3600)).
    rewrite repeat_length. lia.
  - apply (proj1 (proj2 (proj2 changelog_truncates_before_escaping))).
    simpl. lia.
Defined.

(** C6: the changelog script turns every newline of the escaped text into
    the three characters [%0A] and copies every other character; a [%0A]
    that the text already holds goes through this step, and through the
    whole transformation, as it is. *)
Theorem changelog_newlines_to_pct :
  (forall escaped,
      replace [newline] (lit "%0A") escaped = newline_to_pct escaped) /\
  (forall a b,
      replace [newline] (lit "%0A") (a ++ lit "%0A" ++ b) =
      replace [newline] (lit "%0A") a ++ lit "%0A" ++
      replace [newline] (lit "%0A") b) /\
  (forall text,
      EscapeChangelog.transform text =
      newline_to_pct
        (EscapeChangelog.escape_markdown_v2 (slice_to 3500 text))) /\
  EscapeChangelog.transform (lit "%0A") = lit "%0A" /\
  EscapeChangelog.transform [newline] = lit "%0A".
Proof.
  split; [exact newline_step|]. split; [|split; [|split]].
  - intros a b. rewrite !newline_step, !newline_to_pct_app. reflexivity.
  - exact changelog_transform_eq.
  - reflexivity.
  - reflexivity.
Qed.

End Changelog.

(** ** The message script: percent-encoding *)

Section Quote.

Import UrllibParse.

Lemma encode_app (s t : str) :
  encode (s ++ t) =
  match encode s, encode t with
  | Some a, Some b => Some (a ++ b)
  | _, _ => None
  end.
Proof.
  induction s as [|c s IH]; simpl.
  - now destruct (encode t).
  - rewrite IH. destruct (encode_char c) as [b|]; [|reflexivity].
    destruct (encode s) as [bs|]; [|reflexivity].
    destruct (encode t) as [bt|]; [|reflexivity].
    now rewrite app_assoc.
Qed.

(** [quote] works through the text piece by piece. *)
Lemma quote_app (s t : str) :
  quote (s ++ t) = option_app (quote s) (quote t).
Proof.
  unfold quote, quote_with, option_app. rewrite encode_app.
  destruct (encode s) as [a|]; [|reflexivity].
  destruct (encode t) as [b|]; [|reflexivity].
  unfold quote_from_bytes. now rewrite flat_map_app.
Qed.

Lemma quote_always_safe (c : char) :
  In c _ALWAYS_SAFE -> quote [c] = Some [c].
Proof.
  intros H. simpl in H.
  repeat (destruct H as [<-|H]; [reflexivity|]). destruct H.
Qed.

Lemma quote_url_reserved (c : char) :
  In c url_reserved -> c <> slash -> quote [c] = Some (pct_encoded c).
Proof.
  intros H Hne. simpl in H.
  repeat (destruct H as [<-|H];
          [first [reflexivity | exfalso; apply Hne; reflexivity]|]).
  destruct H.
Qed.

(** C7, as the script has it: the message script percent-encodes the whole
    escaped text with [quote] and its default [safe='/']: the text is encoded
    piece by piece, every newline, every backslash and every reserved URL
    character other than the slash becomes its percent-encoded form, and
    ASCII letters, digits, [_], [.], [-], [~] and the slash are copied. *)
Theorem markdown_percent_encoding :
  (forall text,
      EscapeMarkdown.transform text =
      quote (EscapeMarkdown.escape_markdown_v2 text)) /\
  (forall s t, quote (s ++ t) = option_app (quote s) (quote t)) /\
  quote [newline] = Some (lit "%0A") /\
  quote [backslash] = Some (lit "%5C") /\
  (forall c, In c url_reserved -> c <> slash ->
             quote [c] = Some (pct_encoded c)) /\
  (forall c, In c _ALWAYS_SAFE -> quote [c] = Some [c]) /\
  quote [slash] = Some [slash].
Proof.
  split; [reflexivity|]. split; [exact quote_app|].
  split; [reflexivity|]. split; [reflexivity|].
  split; [exact quote_url_reserved|].
  split; [exact quote_always_safe | reflexivity].
Qed.

Lemma markdown_percent_encoding_witness :
  quote (lit "?") = Some (lit "%3F") /\ quote (lit "~") = Some (lit "~").
Proof.
  split.
  - apply (proj1 (proj2 (proj2 (proj2 (proj2 markdown_percent_encoding))))
             63).
    + simpl. do 2 right. left. reflexivity.
    + discriminate.
  - apply (proj1 (proj2 (proj2 (proj2 (proj2 (proj2
             markdown_percent_encoding))))) 126).
    apply mem_In. reflexivity.
Defined.

(** C7, as the specification has it, fails at the slash: it is a reserved
    URL character, its percent-encoded form is [%2F], and the script prints
    it as it is. *)
Lemma markdown_slash_not_encoded :
  In slash url_reserved /\
  pct_encoded slash = lit "%2F" /\
  EscapeMarkdown.transform [slash] = Some [slash] /\
  EscapeMarkdown.transform [slash] <> Some (pct_encoded slash).
Proof.
  repeat split.
  - simpl. right. left. reflexivity.
  - discriminate.
Qed.

End Quote.

(** ** The sync script: placeholder substitution *)

Section Sync.

Import SyncReadme.

Lemma startswith_app_r (old a x : str) :
  startswith old a = true -> startswith old (a ++ x) = true.
Proof.
  revert a; induction old as [|o old IH]; intros a H; [reflexivity|].
  destruct a as [|b a]; [discriminate|]. simpl in *.
  apply andb_true_iff in H as [Hob Hrest].
  rewrite Hob. simpl. now apply IH.
Qed.

(** Whether [old] starts a text is settled by its first [length old]
    characters. *)
Lemma startswith_app_long (old a x : str) :
  (List.length old <= List.length a)%nat ->
  startswith old (a ++ x) = startswith old a.
Proof.
  revert a; induction old as [|o old IH]; intros a H; [reflexivity|].
  destruct a as [|b a]; [simpl in H; lia|]. simpl in *.
  rewrite IH by lia. reflexivity.
Qed.

Lemma no_start_extend (old p x : str) :
  no_start old p old = true -> no_start old p (old ++ x) = true.
Proof.
  induction p as [|c p IH]; [reflexivity|].
  cbn [no_start]. intros H. apply andb_true_iff in H as [H1 H2].
  rewrite IH by exact H2. rewrite andb_true_r.
  rewrite app_assoc, startswith_app_long; [exact H1|].
  rewrite length_app. lia.
Qed.

Lemma no_start_alone (old p : str) :
  no_start old p old = true -> no_start old p [] = true.
Proof.
  induction p as [|c p IH]; [reflexivity|].
  cbn [no_start]. intros H. apply andb_true_iff in H as [H1 H2].
  rewrite IH by exact H2. rewrite andb_true_r.
  apply negb_true_iff. apply negb_true_iff in H1.
  destruct (startswith old ((c :: p) ++ [])) eqn:E; [|reflexivity].
  rewrite app_nil_r in E.
  now rewrite (startswith_app_r old (c :: p) old E) in H1.
Qed.

(** A stretch in which no occurrence starts is copied. *)
Lemma replace_through (old new p rest : str) :
  old <> [] -> no_start old p rest = true ->
  replace old new (p ++ rest) = p ++ replace old new rest.
Proof.
  intros Hold. induction p as [|c p IH]; [reflexivity|].
  cbn [no_start]. intros H. apply andb_true_iff in H as [H1 H2].
  apply negb_true_iff in H1.
  change ((c :: p) ++ rest) with (c :: (p ++ rest)) in *.
  rewrite replace_copy by assumption.
  rewrite IH by exact H2. reflexivity.
Qed.

Lemma placeholder_not_empty : placeholder <> [].
Proof. discriminate. Qed.

(** [str.replace] replaces every occurrence of [old] between the parts. *)
Lemma replace_join (old new : str) (parts : list str) :
  old <> [] ->
  forallb (fun p => no_start old p old) parts = true ->
  replace old new (join old parts) = join new parts.
Proof.
  intros Hold. induction parts as [|p ps IH]; intros H.
  - now apply replace_nil.
  - cbn [forallb] in H. apply andb_true_iff in H as [Hp Hps].
    destruct ps as [|q ps].
    + cbn [join]. rewrite <- (app_nil_r p) at 1.
      rewrite replace_through;
        [| exact Hold | now apply no_start_alone].
      rewrite replace_nil by exact Hold. apply app_nil_r.
    + change (join old (p :: q :: ps))
        with (p ++ old ++ join old (q :: ps)).
      change (join new (p :: q :: ps))
        with (p ++ new ++ join new (q :: ps)).
      rewrite replace_through;
        [| exact Hold | now apply no_start_extend].
      rewrite replace_head by exact Hold.
      rewrite IH by exact Hps. reflexivity.
Qed.

(** C8, as the script has it: the substitution is one call of the literal
    [str.replace], and it replaces every occurrence of the placeholder: a
    content made of parts with the placeholder between them, where the
    placeholder starts nowhere else, becomes the parts with the fetched text
    between them. *)
Theorem new_content_replaces_every_placeholder
  (parts : list str) (raw_content : str) :
  forallb (fun p => no_start placeholder p placeholder) parts = true ->
  new_content (join placeholder parts) raw_content = join raw_content parts.
Proof.
  intros H. unfold new_content.
  apply replace_join; [exact placeholder_not_empty | exact H].
Qed.

Lemma new_content_replaces_every_placeholder_witness :
  new_content
    (join placeholder [lit "# Title "; lit " and again "; lit " end"])
    (lit "README")
  = lit "# Title README and again README end".
Proof.
  apply (new_content_replaces_every_placeholder
           [lit "# Title "; lit " and again "; lit " end"] (lit "README")).
  vm_compute. reflexivity.
Defined.

(** C8, as the specification has it, fails on a content with two
    placeholders: neither is left in the content written back, which
    differs from the content with its first occurrence replaced. *)
Lemma new_content_two_placeholders :
  new_content (placeholder ++ lit " and " ++ placeholder) (lit "X")
  = lit "X and X" /\
  replace_first placeholder (lit "X")
    (placeholder ++ lit " and " ++ placeholder)
  = lit "X and " ++ placeholder /\
  new_content (placeholder ++ lit " and " ++ placeholder) (lit "X")
  <> replace_first placeholder (lit "X")
       (placeholder ++ lit " and " ++ placeholder) /\
  contains placeholder
    (new_content (placeholder ++ lit " and " ++ placeholder) (lit "X"))
  = false.
Proof.
  split; [vm_compute; reflexivity|].
  split; [vm_compute; reflexivity|].
  split; [|vm_compute; reflexivity].
  intros H. vm_compute in H. discriminate H.
Qed.

End Sync.

(** ** Standard output, buffered *)

Section Buffering.

Import Process.

Variable env : Env.

Lemma same_err_refl (w : World) : same_err w w.
Proof. split; reflexivity. Qed.

Lemma same_err_trans (w1 w2 w3 : World) :
  same_err w1 w2 -> same_err w2 w3 -> same_err w1 w3.
Proof. intros [H1 H2] [H3 H4]. split; congruence. Qed.

Lemma set_out_same_err (d b : str) (p : option str) (w : World) :
  same_err w (set_out d b p w).
Proof. split; reflexivity. Qed.

(** A write to the device leaves the buffers and standard error alone. *)
Lemma raw_write_keeps (data : str) (w w' : World) (n : nat) :
  raw_write env data w = inr (n, w') ->
  out_buffer w' = out_buffer w /\ out_pending w' = out_pending w /\
  same_err w w'.
Proof.
  unfold raw_write. destruct (stdout_fault env) as [d|].
  - destruct data as [|c data]; [intros [= <- <-]; now repeat split|].
    destruct (room d - List.length (out_device w))%nat;
      [discriminate | intros [= <- <-]; now repeat split].
  - intros [= <- <-]. now repeat split.
Qed.

(** A failed write-through leaves the buffers and standard error as they
    were. *)
Lemma write_through_keeps (fuel : nat) (data : str) (w : World) :
  same_err w (world_of (write_through env fuel data w)) /\
  out_pending (world_of (write_through env fuel data w)) = out_pending w /\
  forall e w', write_through env fuel data w = inl (e, w') ->
               out_buffer w' = out_buffer w.
Proof.
  revert data w. induction fuel as [|fuel IH]; intros data w; cbn [write_through].
  - destruct (List.length data <=? out_buffer_size env)%nat;
      repeat split; discriminate.
  - destruct (List.length data <=? out_buffer_size env)%nat;
      [repeat split; discriminate|].
    destruct (raw_write env data w) as [e|[n w1]] eqn:E.
    + repeat split. intros e' w' [= _ <-]. reflexivity.
    + apply raw_write_keeps in E as (Hb & Hp & He).
      destruct (IH (skipn n data) w1) as (He' & Hp' & Hf).
      split; [now apply same_err_trans with w1|].
      split; [congruence|]. intros e w' H. rewrite (Hf e w' H). exact Hb.
Qed.

Lemma flush_buffer_same_err (fuel : nat) (w : World) :
  same_err w (world_of (flush_buffer env fuel w)).
Proof.
  revert w. induction fuel as [|fuel IH]; intros w; cbn [flush_buffer].
  - destruct (out_buffer w); apply same_err_refl.
  - destruct (out_buffer w) as [|c b] eqn:Eb; [apply same_err_refl|].
    destruct (raw_write env (c :: b) w) as [e|[n w1]] eqn:E;
      [apply same_err_refl|].
    apply raw_write_keeps in E as (_ & _ & He).
    eapply same_err_trans; [|apply IH].
    eapply same_err_trans; [exact He | apply set_out_same_err].
Qed.

Lemma flush_buffer_empty (fuel : nat) (w : World) :
  out_buffer w = [] -> flush_buffer env fuel w = inr w.
Proof. intros H. destruct fuel; cbn [flush_buffer]; now rewrite H. Qed.

Lemma buffer_write_same_err (data : str) (w : World) :
  same_err w (world_of (buffer_write env data w)).
Proof.
  unfold buffer_write.
  destruct (List.length data
            <=? out_buffer_size env - List.length (out_buffer w))%nat;
    [apply set_out_same_err|].
  pose proof (flush_buffer_same_err (List.length (out_buffer w)) w) as H.
  destruct (flush_buffer env (List.length (out_buffer w)) w)
    as [[e w1]|w1]; [exact H|].
  eapply same_err_trans; [exact H | apply write_through_keeps].
Qed.

Lemma write_flush_same_err (w : World) :
  same_err w (world_of (write_flush env w)).
Proof.
  unfold write_flush. destruct (out_pending w); [|apply same_err_refl].
  eapply same_err_trans; [|apply buffer_write_same_err].
  apply set_out_same_err.
Qed.

Lemma stdout_write_same_err (text : str) (w : World) :
  same_err w (snd (stdout_write env text w)).
Proof.
  unfold stdout_write.
  assert (Hflush : forall w0,
    same_err w0
      (snd (match write_flush env w0 with
            | inl (e, w'') => (Raises (A:=unit) e, w'')
            | inr w'' => (Returns tt, w'')
            end))).
  { intros w0. pose proof (write_flush_same_err w0) as H.
    destruct (write_flush env w0) as [[e w1]|w1]; exact H. }
  assert (Hafter : forall w0, same_err w w0 ->
    same_err w
      (snd (match out_pending w0 with
            | Some pending =>
                if (chunk_size <=? List.length pending)%nat
                then match write_flush env w0 with
                     | inl (e, w'') => (Raises (A:=unit) e, w'')
                     | inr w'' => (Returns tt, w'')
                     end
                else (Returns tt, w0)
            | None => (Returns tt, w0)
            end))).
  { intros w0 H0. destruct (out_pending w0) as [p|]; [|exact H0].
    destruct (chunk_size <=? List.length p)%nat; [|exact H0].
    eapply same_err_trans; [exact H0 | apply Hflush]. }
  destruct (out_pending w) as [p|] eqn:Ep.
  - destruct (chunk_size <? List.length p + List.length text)%nat.
    + pose proof (write_flush_same_err w) as H.
      destruct (write_flush env w) as [[e w1]|w1]; [exact H|].
      apply Hafter. eapply same_err_trans; [exact H|].
      apply set_out_same_err.
    + apply Hafter. apply set_out_same_err.
  - apply Hafter. apply set_out_same_err.
Qed.

Lemma print_same_err (s : str) (w : World) :
  same_err w (snd (print env s w)).
Proof.
  unfold print, bind. pose proof (stdout_write_same_err s w) as H.
  destruct (stdout_write env s w) as [[[]|e|n] w1]; cbn [snd] in *;
    try exact H.
  eapply same_err_trans; [exact H|].
  pose proof (stdout_write_same_err [newline] w1) as H1.
  destruct (stdout_write env [newline] w1) as [[[]|e|n] w2]; exact H1.
Qed.

Lemma stdout_flush_same_err (w : World) :
  same_err w (world_of (stdout_flush env w)).
Proof.
  unfold stdout_flush. pose proof (write_flush_same_err w) as H.
  destruct (write_flush env w) as [[e w1]|w1]; [exact H|].
  eapply same_err_trans; [exact H | apply flush_buffer_same_err].
Qed.

(** A write that the device accepts takes at least one character of a text
    that is not empty. *)
Lemma raw_write_progress (data : str) (w w' : World) (n : nat) :
  raw_write env data w = inr (n, w') -> data <> [] ->
  (1 <= n <= List.length data)%nat.
Proof.
  unfold raw_write. destruct (stdout_fault env) as [d|].
  - destruct data as [|c data]; [congruence|].
    destruct (room d - List.length (out_device w))%nat;
      [discriminate|]. intros [= <- _] _. cbn [List.length]. lia.
  - intros [= <- _] Hne. destruct data; [congruence|]. cbn [List.length]. lia.
Qed.

(** The writes of [write_through] and of [flush_buffer] never run out of
    fuel: with one unit of fuel per character, more fuel changes nothing. *)
Lemma write_through_fuel (fuel fuel' : nat) (data : str) (w : World) :
  (List.length data <= fuel)%nat -> (List.length data <= fuel')%nat ->
  write_through env fuel data w = write_through env fuel' data w.
Proof.
  revert fuel' data w. induction fuel as [|fuel IH]; intros fuel' data w H H'.
  - destruct data; [|cbn in H; lia].
    destruct fuel'; reflexivity.
  - destruct fuel' as [|fuel'].
    + destruct data; [reflexivity | cbn in H'; lia].
    + cbn [write_through].
      destruct (List.length data <=? out_buffer_size env)%nat; [reflexivity|].
      destruct (raw_write env data w) as [e|[n w1]] eqn:E; [reflexivity|].
      destruct data as [|c data].
      * unfold raw_write in E. destruct (stdout_fault env);
          injection E as <- <-; cbn [skipn];
          destruct fuel, fuel'; reflexivity.
      * apply raw_write_progress in E as [Hn Hn']; [|discriminate].
        apply IH; rewrite length_skipn; lia.
Qed.

Lemma flush_buffer_fuel (fuel fuel' : nat) (w : World) :
  (List.length (out_buffer w) <= fuel)%nat ->
  (List.length (out_buffer w) <= fuel')%nat ->
  flush_buffer env fuel w = flush_buffer env fuel' w.
Proof.
  revert fuel' w. induction fuel as [|fuel IH]; intros fuel' w H H'.
  - destruct (out_buffer w) eqn:Eb; [|cbn in H; lia].
    now rewrite !flush_buffer_empty.
  - destruct fuel' as [|fuel'].
    + destruct (out_buffer w) eqn:Eb; [|cbn in H'; lia].
      now rewrite !flush_buffer_empty.
    + cbn [flush_buffer]. destruct (out_buffer w) as [|c b] eqn:Eb;
        [reflexivity|].
      destruct (raw_write env (c :: b) w) as [e|[n w1]] eqn:E; [reflexivity|].
      apply raw_write_progress in E as [Hn Hn']; [|discriminate].
      apply IH; cbn [out_buffer set_out]; rewrite length_skipn; lia.
Qed.

(** Flushing a standard output whose buffers are empty does nothing. *)
Lemma stdout_flush_clean (w : World) :
  out_buffer w = [] -> out_pending w = None -> stdout_flush env w = inr w.
Proof.
  intros Hb Hp. unfold stdout_flush, write_flush. rewrite Hp.
  now apply flush_buffer_empty.
Qed.

End Buffering.

(** ** Standard output that takes everything *)

Section Unlimited.

Import Process.

Variable env : Env.
Hypothesis unlimited : stdout_fault env = None.

Lemma raw_write_unlimited (data : str) (w : World) :
  raw_write env data w =
  inr (List.length data,
       set_out (out_device w ++ data) (out_buffer w) (out_pending w) w).
Proof. unfold raw_write. now rewrite unlimited. Qed.

Lemma flush_buffer_unlimited (w : World) :
  exists w',
    flush_buffer env (List.length (out_buffer w)) w = inr w' /\
    out_device w' = out_device w ++ out_buffer w /\
    out_buffer w' = [] /\ out_pending w' = out_pending w.
Proof.
  destruct (out_buffer w) as [|c b] eqn:Eb.
  - exists w. rewrite flush_buffer_empty by exact Eb.
    rewrite app_nil_r. now repeat split.
  - change (List.length (c :: b)) with (S (List.length b)).
    cbn [flush_buffer]. rewrite Eb, raw_write_unlimited.
    cbv beta iota. rewrite skipn_all. eexists. split.
    + apply flush_buffer_empty. reflexivity.
    + cbn. now repeat split.
Qed.

Lemma write_through_unlimited (data : str) (w : World) :
  exists w',
    write_through env (List.length data) data w = inr w' /\
    out_device w' ++ out_buffer w' = out_device w ++ data /\
    out_pending w' = out_pending w.
Proof.
  destruct data as [|c data].
  - cbn [List.length write_through]. eexists. split; [reflexivity|].
    cbn. now rewrite app_nil_r.
  - cbn [List.length write_through].
    destruct (S (List.length data) <=? out_buffer_size env)%nat.
    + eexists. split; [reflexivity|]. cbn. now split.
    + rewrite raw_write_unlimited. cbv beta iota. rewrite skipn_all.
      destruct (List.length data); cbn [write_through List.length Nat.leb];
        eexists; (split; [reflexivity|]); cbn; now rewrite app_nil_r.
Qed.

Lemma buffer_write_unlimited (data : str) (w : World) :
  exists w',
    buffer_write env data w = inr w' /\
    out_device w' ++ out_buffer w' = out_device w ++ out_buffer w ++ data /\
    out_pending w' = out_pending w.
Proof.
  unfold buffer_write.
  destruct (List.length data
            <=? out_buffer_size env - List.length (out_buffer w))%nat.
  - eexists. split; [reflexivity|]. cbn. now split.
  - destruct (flush_buffer_unlimited w) as (w1 & -> & Hd & Hb & Hp).
    destruct (write_through_unlimited data w1) as (w2 & -> & Hd2 & Hp2).
    exists w2. split; [reflexivity|]. split; [|congruence].
    now rewrite Hd2, Hd, app_assoc.
Qed.

Lemma write_flush_unlimited (w : World) :
  exists w',
    write_flush env w = inr w' /\
    out_device w' ++ out_buffer w' = out_total w /\ out_pending w' = None.
Proof.
  unfold write_flush, out_total. destruct (out_pending w) as [p|] eqn:Ep.
  - destruct (buffer_write_unlimited p
                (set_out (out_device w) (out_buffer w) None w))
      as (w1 & -> & Hd & Hp).
    exists w1. now repeat split.
  - exists w. rewrite app_nil_r. now repeat split.
Qed.

Lemma stdout_write_unlimited (text : str) (w : World) :
  exists w',
    stdout_write env text w = (Returns tt, w') /\
    out_total w' = out_total w ++ text.
Proof.
  assert (Hafter : forall w0,
    exists w',
      match out_pending w0 with
      | Some pending =>
          if (chunk_size <=? List.length pending)%nat
          then match write_flush env w0 with
               | inl (e, w'') => (Raises (A:=unit) e, w'')
               | inr w'' => (Returns tt, w'')
               end
          else (Returns tt, w0)
      | None => (Returns tt, w0)
      end = (Returns tt, w') /\ out_total w' = out_total w0).
  { intros w0. destruct (out_pending w0) as [p|] eqn:Ep;
      [|exists w0; now split].
    destruct (chunk_size <=? List.length p)%nat; [|exists w0; now split].
    destruct (write_flush_unlimited w0) as (w1 & -> & Hd & Hp).
    exists w1. split; [reflexivity|].
    unfold out_total at 1. rewrite Hp, app_nil_r. exact Hd. }
  unfold stdout_write. destruct (out_pending w) as [p|] eqn:Ep.
  - destruct (chunk_size <? List.length p + List.length text)%nat.
    + destruct (write_flush_unlimited w) as (w1 & -> & Hd & Hp).
      destruct (Hafter (set_out (out_device w1) (out_buffer w1)
                          (Some text) w1)) as (w2 & -> & Ht).
      exists w2. split; [reflexivity|]. rewrite Ht.
      unfold out_total at 1. cbn. now rewrite app_assoc, Hd.
    + destruct (Hafter (set_out (out_device w) (out_buffer w)
                          (Some (p ++ text)) w)) as (w2 & -> & Ht).
      exists w2. split; [reflexivity|]. rewrite Ht.
      unfold out_total. cbn. rewrite Ep. now rewrite !app_assoc.
  - destruct (Hafter (set_out (out_device w) (out_buffer w)
                        (Some text) w)) as (w2 & -> & Ht).
    exists w2. split; [reflexivity|]. rewrite Ht.
    unfold out_total. cbn. rewrite Ep. now rewrite !app_nil_r, app_assoc.
Qed.

Lemma stdout_flush_unlimited (w : World) :
  exists w',
    stdout_flush env w = inr w' /\ out_device w' = out_total w /\
    out_buffer w' = [] /\ out_pending w' = None.
Proof.
  unfold stdout_flush.
  destruct (write_flush_unlimited w) as (w1 & -> & Hd & Hp).
  destruct (flush_buffer_unlimited w1) as (w2 & -> & Hd2 & Hb2 & Hp2).
  exists w2. split; [reflexivity|]. repeat split; congruence.
Qed.

(** With a standard output that takes everything, [print] returns and the
    whole line is on the device once the streams are flushed. *)
Lemma print_unlimited (s : str) :
  exists w w',
    print env s start = (Returns tt, w) /\
    stdout_flush env w = inr w' /\
    out_device w' = s ++ [newline] /\
    out_buffer w' = [] /\ out_pending w' = None /\
    err_device w' = [] /\ err_failed w' = false.
Proof.
  unfold print, bind.
  destruct (stdout_write_unlimited s start) as (w1 & E1 & H1).
  destruct (stdout_write_unlimited [newline] w1) as (w2 & E2 & H2).
  destruct (stdout_flush_unlimited w2) as (w3 & E3 & H3 & Hb3 & Hp3).
  exists w2, w3. rewrite E1, E2. split; [reflexivity|].
  split; [exact E3|]. split; [|split; [exact Hb3|split; [exact Hp3|]]].
  - rewrite H3, H2, H1. reflexivity.
  - pose proof (stdout_write_same_err env s start) as S1.
    pose proof (stdout_write_same_err env [newline] w1) as S2.
    pose proof (stdout_flush_same_err env w2) as S3.
    rewrite E1 in S1. rewrite E2 in S2. rewrite E3 in S3.
    cbn [snd world_of] in *.
    destruct S1 as [A1 B1], S2 as [A2 B2], S3 as [A3 B3].
    split; [rewrite A3, A2, A1 | rewrite B3, B2, B1]; reflexivity.
Qed.

End Unlimited.

(** ** What a failing [print] leaves behind *)

Section FailingPrint.

Import Process.

Variable env : Env.

Lemma firstn_skipn_add (n k : nat) (l : str) :
  firstn n l ++ firstn k (skipn n l) = firstn (n + k) l.
Proof.
  revert l; induction n as [|n IH]; intros l; [reflexivity|].
  destruct l as [|c l]; [now destruct k|].
  cbn [firstn skipn Nat.add app]. now rewrite IH.
Qed.

Lemma raw_write_device (data : str) (w w' : World) (n : nat) :
  raw_write env data w = inr (n, w') ->
  out_device w' = out_device w ++ firstn n data.
Proof.
  unfold raw_write. destruct (stdout_fault env) as [d|].
  - destruct data as [|c data];
      [intros [= <- <-]; now rewrite app_nil_r|].
    destruct (room d - List.length (out_device w))%nat;
      [discriminate | intros [= <- <-]; reflexivity].
  - intros [= <- <-]. cbn [out_device set_out]. now rewrite firstn_all.
Qed.

(** What is written through reaches the device in order. *)
Lemma write_through_device (fuel : nat) (data : str) (w : World) :
  exists k,
    out_device (world_of (write_through env fuel data w)) =
    out_device w ++ firstn k data.
Proof.
  revert data w. induction fuel as [|fuel IH]; intros data w;
    cbn [write_through].
  - exists O. destruct (List.length data <=? out_buffer_size env)%nat;
      cbn; now rewrite app_nil_r.
  - destruct (List.length data <=? out_buffer_size env)%nat;
      [exists O; cbn; now rewrite app_nil_r|].
    destruct (raw_write env data w) as [e|[n w1]] eqn:E;
      [exists O; cbn; now rewrite app_nil_r|].
    apply raw_write_device in E. destruct (IH (skipn n data) w1) as [k Hk].
    exists (n + k)%nat. rewrite Hk, E, <- app_assoc.
    now rewrite firstn_skipn_add.
Qed.

(** When the first flush of standard output fails, nothing is left in its
    buffers, and the device holds the beginning of the text. *)
Lemma write_flush_fresh (pending : str) (w : World) :
  out_device w = [] -> out_buffer w = [] -> out_pending w = Some pending ->
  forall e w', write_flush env w = inl (e, w') ->
               out_buffer w' = [] /\ out_pending w' = None /\
               exists k, out_device w' = firstn k pending.
Proof.
  intros Hd Hb Hp e w'. unfold write_flush. rewrite Hp. unfold buffer_write.
  cbn [out_buffer set_out]. rewrite Hb, Hd.
  destruct (List.length pending <=? out_buffer_size env - List.length [])%nat;
    [discriminate|].
  rewrite flush_buffer_empty by reflexivity.
  intros H.
  match type of H with
  | write_through _ ?fuel ?data ?w0 = _ =>
      destruct (write_through_keeps env fuel data w0) as (_ & Hpend & Hbuf);
      destruct (write_through_device fuel data w0) as [k Hk]
  end.
  rewrite H in Hpend, Hk. cbn [world_of] in Hpend, Hk.
  split; [exact (Hbuf e w' H)|]. split; [exact Hpend|].
  exists k. exact Hk.
Qed.

Lemma newline_below_chunk :
  (chunk_size <=? List.length [newline])%nat = false.
Proof. reflexivity. Qed.

(** The first write to standard output. *)
Lemma stdout_write_first (s : str) :
  stdout_write env s start =
  if (chunk_size <=? List.length s)%nat
  then match write_flush env (set_out [] [] (Some s) start) with
       | inl (e, w) => (Raises e, w)
       | inr w => (Returns tt, w)
       end
  else (Returns tt, set_out [] [] (Some s) start).
Proof. reflexivity. Qed.

(** The write of the newline when nothing is pending. *)
Lemma stdout_write_newline (w : World) :
  out_pending w = None ->
  stdout_write env [newline] w =
  (Returns tt, set_out (out_device w) (out_buffer w) (Some [newline]) w).
Proof.
  intros H. unfold stdout_write. rewrite H.
  cbn [out_pending set_out]. now rewrite newline_below_chunk.
Qed.

(** The write of the newline after a short text. *)
Lemma stdout_write_second (s : str) :
  (List.length s < chunk_size)%nat ->
  stdout_write env [newline] (set_out [] [] (Some s) start) =
  if (chunk_size <=? List.length (s ++ [newline]))%nat
  then match write_flush env (set_out [] [] (Some (s ++ [newline])) start)
       with
       | inl (e, w) => (Raises e, w)
       | inr w => (Returns tt, w)
       end
  else (Returns tt, set_out [] [] (Some (s ++ [newline])) start).
Proof.
  intros H. unfold stdout_write. cbn [out_pending set_out].
  assert (Hlt : (chunk_size <? List.length s + List.length [newline])%nat
                = false) by (apply Nat.ltb_ge; cbn [List.length]; lia).
  rewrite Hlt. reflexivity.
Qed.

Lemma write_flush_fresh_pending (s : str) (w : World) :
  write_flush env (set_out [] [] (Some s) start) = inr w ->
  out_pending w = None.
Proof.
  unfold write_flush. cbn [out_pending set_out out_device out_buffer].
  unfold buffer_write. cbn [out_buffer set_out].
  destruct (List.length s <=? out_buffer_size env - List.length [])%nat.
  - intros [= <-]. reflexivity.
  - rewrite flush_buffer_empty by reflexivity. intros H.
    match type of H with
    | write_through _ ?fuel ?data ?w0 = _ =>
        destruct (write_through_keeps env fuel data w0) as (_ & Hpend & _)
    end.
    rewrite H in Hpend. exact Hpend.
Qed.

(** [print] on the untouched streams returns, or raises with nothing left
    in the buffers of standard output and the beginning of the line on the
    device. *)
Lemma print_start (s : str) :
  (exists w, print env s start = (Returns tt, w)) \/
  (exists e w, print env s start = (Raises e, w) /\
               out_buffer w = [] /\ out_pending w = None /\
               exists rest, s ++ [newline] = out_device w ++ rest).
Proof.
  unfold print, bind. rewrite stdout_write_first.
  destruct (chunk_size <=? List.length s)%nat eqn:Echunk.
  - destruct (write_flush env (set_out [] [] (Some s) start))
      as [[e w1]|w1] eqn:E1.
    + right. exists e, w1. split; [reflexivity|].
      destruct (write_flush_fresh s (set_out [] [] (Some s) start)
                  eq_refl eq_refl eq_refl e w1 E1) as (Hb & Hp & k & Hk).
      split; [exact Hb|]. split; [exact Hp|].
      exists (skipn k s ++ [newline]).
      now rewrite Hk, app_assoc, firstn_skipn.
    + left. rewrite stdout_write_newline
        by (now apply write_flush_fresh_pending with s).
      eexists. reflexivity.
  - apply Nat.leb_gt in Echunk. rewrite stdout_write_second by exact Echunk.
    destruct (chunk_size <=? List.length (s ++ [newline]))%nat;
      [|left; eexists; reflexivity].
    destruct (write_flush env (set_out [] [] (Some (s ++ [newline])) start))
      as [[e w1]|w1] eqn:E1.
    + right. exists e, w1. split; [reflexivity|].
      destruct (write_flush_fresh (s ++ [newline])
                  (set_out [] [] (Some (s ++ [newline])) start)
                  eq_refl eq_refl eq_refl e w1 E1) as (Hb & Hp & k & Hk).
      split; [exact Hb|]. split; [exact Hp|].
      exists (skipn k (s ++ [newline])). now rewrite Hk, firstn_skipn.
    + left. eexists. reflexivity.
Qed.

Lemma print_never_exits (s : str) (n : N) (w : World) :
  print env s start <> (Exits n, w).
Proof.
  destruct (print_start s) as [[w1 H]|(e & w1 & H & _)]; rewrite H;
    discriminate.
Qed.


Lemma print_returned (s : str) (w : World) :
  print env s start = (Returns tt, w) ->
  err_device w = [] /\ err_failed w = false.
Proof.
  intros H. pose proof (print_same_err env s start) as [A B].
  rewrite H in A, B. now split.
Qed.

End FailingPrint.

(** ** Both escapers: the run of [main] *)

Section Run.

Import Process.

Variable env : Env.

(** The handler, with a standard error that takes everything. *)
Lemma report_written (e : PyException) (w : World) :
  stderr_fault env = None ->
  report env e w =
  (Exits 1,
   {| out_device := out_device w; out_buffer := out_buffer w;
      out_pending := out_pending w;
      err_device := err_device w ++ error_line e;
      err_failed := err_failed w |}).
Proof.
  intros H. unfold report, bind, print_stderr, stderr_write, sys_exit.
  rewrite H. unfold error_line. now rewrite <- app_assoc.
Qed.

Lemma changelog_main_text (text : str) :
  file_text env = inr text ->
  changelog_main env start =
  match print env (EscapeChangelog.transform text) start with
  | (Raises e, w) => report env e w
  | r => r
  end.
Proof.
  intros H. unfold changelog_main, try_except, bind, read_file.
  rewrite H. reflexivity.
Qed.

Lemma markdown_main_text (text encoded : str) :
  file_text env = inr text ->
  EscapeMarkdown.transform text = Some encoded ->
  markdown_main env start =
  match print env encoded start with
  | (Raises e, w) => report env e w
  | r => r
  end.
Proof.
  intros H Hq. unfold EscapeMarkdown.transform in Hq.
  unfold markdown_main, try_except, bind, read_file.
  rewrite H. cbv beta iota delta [ret]. rewrite Hq. reflexivity.
Qed.






(** The run when [print] has returned and the first flush has lost the
    text without leaving anything for the last flush. *)
Lemma run_flush_lost (main : io env unit) (s : str) (w w' : World) :
  main start = match print env s start with
               | (Raises e, w) => report env e w
               | r => r
               end ->
  print env s start = (Returns tt, w) ->
  stdout_flush env (flush_io env w) = inr w' ->
  run main = ({| stdout := out_device w'; stderr := [] |}, 0).
Proof.
  intros Hmain Hp Hfl. unfold run. rewrite Hmain, Hp, Hfl.
  apply print_returned in Hp as (Hd & Hf).
  pose proof (stdout_flush_same_err env w) as [A A'].
  pose proof (stdout_flush_same_err env (flush_io env w)) as [B B'].
  rewrite Hfl in B, B'. cbn [world_of] in B, B'. unfold flush_io in B, B'.
  unfold streams. now rewrite B', A', Hf, B, A, Hd.
Qed.

(** The run when standard output takes everything. *)
Lemma run_printed (main : io env unit) (s : str) :
  main start = match print env s start with
               | (Raises e, w) => report env e w
               | r => r
               end ->
  stdout_fault env = None ->
  run main = ({| stdout := s ++ [newline]; stderr := [] |}, 0).
Proof.
  intros Hmain Ho. unfold run, flush_io. rewrite Hmain.
  destruct (print_unlimited env Ho s)
    as (w & w' & -> & -> & Hd & Hb & Hp & He & Hf).
  cbn [world_of]. rewrite stdout_flush_clean by assumption.
  unfold streams. now rewrite Hd, He, Hf.
Qed.



Lemma changelog_success (text : str) :
  file_text env = inr text -> stdout_fault env = None ->
  run (changelog_main env) =
  ({| stdout := EscapeChangelog.transform text ++ [newline];
      stderr := [] |}, 0).
Proof.
  intros H. apply run_printed. now apply changelog_main_text.
Qed.

Lemma markdown_success (text encoded : str) :
  file_text env = inr text ->
  EscapeMarkdown.transform text = Some encoded ->
  stdout_fault env = None ->
  run (markdown_main env) =
  ({| stdout := encoded ++ [newline]; stderr := [] |}, 0).
Proof.
  intros H Hq. apply run_printed. now apply markdown_main_text with text.
Qed.

End Run.

Section RunClaims.

Import Process.





(** The same text with room for 8192 characters: what remains after the
    first write fits into the buffer, [print] returns, and the failure
    shows when the interpreter flushes at exit: no report by the script,
    status 120. *)
Example disk_with_room_for_8192 :
  snd (run (changelog_main
              (disk_with_room (repeat newline 3500) (2 * 4096)))) = 120 /\
  stderr (fst (run (changelog_main
                      (disk_with_room (repeat newline 3500) (2 * 4096)))))
    = lit "Exception ignored: [Errno 28] No space left on device"
      ++ [newline] /\
  List.length
    (stdout (fst (run (changelog_main
                         (disk_with_room (repeat newline 3500) (2 * 4096))))))
    = (2 * 4096)%nat.
Proof. repeat split; vm_compute; reflexivity. Qed.

(** A short text on a disk with no room: nothing is written before the
    flush at exit, which fails. *)
Example disk_without_room :
  run (changelog_main (disk_with_room (lit "a_b") 0))
  = ({| stdout := [];
        stderr :=
          lit "Exception ignored: [Errno 28] No space left on device"
          ++ [newline] |}, 120).
Proof. vm_compute. reflexivity. Qed.

(** 3500 underscores, a line of 7001 characters, on a disk with no room:
    the line is below [chunk_size], so [print] returns; it is larger than
    the buffer, so the flush of [flush_io] writes it through, fails and
    drops it; the last flush finds nothing to write.  The output is lost,
    nothing is reported and the status is 0. *)
Example disk_without_room_silent :
  run (changelog_main (disk_with_room (repeat underscore 3500) 0))
  = ({| stdout := []; stderr := [] |}, 0).
Proof. vm_compute. reflexivity. Qed.

(** A missing file and a standard error that takes nothing: the handler's
    own [print] raises, nothing is reported and the status is 120. *)
Example missing_file_without_stderr :
  run (changelog_main missing_file_no_stderr)
  = ({| stdout := []; stderr := [] |}, 120).
Proof. vm_compute. reflexivity. Qed.

End RunClaims.


(** ** The scenarios of the specification *)

Section Scenarios.

Example changelog_fixed_bug :
  EscapeChangelog.transform (lit "Fixed bug in v1.2.3!") =
  lit "Fixed bug in v1" ++ [backslash] ++ lit ".2" ++ [backslash] ++
  lit ".3" ++ [backslash] ++ lit "!".
Proof. reflexivity. Qed.

Example changelog_a_b_c :
  EscapeChangelog.transform (lit "a_b*c") =
  lit "a" ++ [backslash] ++ lit "_b" ++ [backslash] ++ lit "*c".
Proof. reflexivity. Qed.

Example markdown_a_b_c :
  EscapeMarkdown.transform (lit "a_b*c") = Some (lit "a%5C_b%5C%2Ac").
Proof. reflexivity. Qed.

(** With the backslash escaped last, the backslash put before an underscore
    would be escaped again. *)
Example backslash_last :
  escape_loop (tl reserved ++ [backslash]) [underscore] =
  [backslash; backslash; underscore].
Proof. reflexivity. Qed.

End Scenarios.

(** * Further properties of the scripts *)

(** ** The escaped text can be read back *)

Section Reading.

Lemma unescape_escape_one_pass (s : str) :
  unescape (escape_one_pass s) = s.
Proof.
  induction s as [|c s IH]; [reflexivity|].
  unfold escape_one_pass in *. cbn [flat_map].
  destruct (is_reserved c) eqn:Hc.
  - cbn [app unescape]. rewrite N.eqb_refl. now rewrite IH.
  - cbn [app unescape]. destruct (N.eqb_spec c backslash) as [->|_].
    + discriminate Hc.
    + now rewrite IH.
Qed.

Lemma well_escaped_escape_one_pass (s : str) :
  well_escaped (escape_one_pass s) = true.
Proof.
  induction s as [|c s IH]; [reflexivity|].
  unfold escape_one_pass in *. cbn [flat_map].
  destruct (is_reserved c) eqn:Hc.
  - cbn [app well_escaped]. rewrite N.eqb_refl, Hc. exact IH.
  - cbn [app well_escaped]. destruct (N.eqb_spec c backslash) as [->|_].
    + discriminate Hc.
    + rewrite Hc. exact IH.
Qed.

(** After the newlines are replaced the text is still well escaped. *)
Lemma well_escaped_newline_to_pct (s : str) :
  well_escaped (newline_to_pct (escape_one_pass s)) = true.
Proof.
  induction s as [|c s IH]; [reflexivity|].
  unfold escape_one_pass in *. cbn [flat_map].
  rewrite newline_to_pct_app.
  destruct (is_reserved c) eqn:Hc.
  - unfold newline_to_pct at 1. cbn [flat_map].
    change (backslash =? newline) with false.
    destruct (N.eqb_spec c newline) as [->|_]; [discriminate Hc|].
    cbn [app well_escaped]. rewrite N.eqb_refl, Hc. exact IH.
  - unfold newline_to_pct at 1. cbn [flat_map].
    destruct (N.eqb_spec c newline) as [->|_].
    + exact IH.
    + cbn [app well_escaped]. destruct (N.eqb_spec c backslash) as [->|_].
      * discriminate Hc.
      * rewrite Hc. exact IH.
Qed.

(** X1: [escape_markdown_v2] loses nothing, in both scripts: dropping the
    backslash before every character of the escaped text gives the text
    back, so that two texts with the same escaped form are the same text. *)
Theorem escape_markdown_v2_injective :
  (forall s, unescape (EscapeChangelog.escape_markdown_v2 s) = s) /\
  (forall s, unescape (EscapeMarkdown.escape_markdown_v2 s) = s) /\
  (forall s t,
      EscapeChangelog.escape_markdown_v2 s =
      EscapeChangelog.escape_markdown_v2 t -> s = t) /\
  (forall s t,
      EscapeMarkdown.escape_markdown_v2 s =
      EscapeMarkdown.escape_markdown_v2 t -> s = t).
Proof.
  assert (H1 : forall s, unescape (EscapeChangelog.escape_markdown_v2 s) = s)
    by (intros s; rewrite changelog_escape_one_pass;
        apply unescape_escape_one_pass).
  assert (H2 : forall s, unescape (EscapeMarkdown.escape_markdown_v2 s) = s)
    by (intros s; rewrite markdown_escape_one_pass;
        apply unescape_escape_one_pass).
  split; [exact H1|]. split; [exact H2|]. split; intros s t H.
  - rewrite <- (H1 s), <- (H1 t). now f_equal.
  - rewrite <- (H2 s), <- (H2 t). now f_equal.
Qed.

Lemma escape_markdown_v2_injective_witness :
  [backslash; underscore] = [backslash; underscore].
Proof.
  apply (proj1 (proj2 (proj2 escape_markdown_v2_injective))
           [backslash; underscore] [backslash; underscore]).
  reflexivity.
Defined.

(** X2: what the scripts escape is well escaped: in the result of
    [escape_markdown_v2], and in the text that the changelog script prints,
    every reserved character stands right after a backslash that escapes it
    and every backslash escapes a reserved character. *)
Theorem escaped_text_well_escaped (text : str) :
  well_escaped (EscapeChangelog.escape_markdown_v2 text) = true /\
  well_escaped (EscapeMarkdown.escape_markdown_v2 text) = true /\
  well_escaped (EscapeChangelog.transform text) = true.
Proof.
  split; [|split].
  - rewrite changelog_escape_one_pass. apply well_escaped_escape_one_pass.
  - rewrite markdown_escape_one_pass. apply well_escaped_escape_one_pass.
  - rewrite changelog_transform_eq, changelog_escape_one_pass.
    apply well_escaped_newline_to_pct.
Qed.

End Reading.

(** ** The text that the changelog script prints *)

Section ChangelogOutput.

Import Process.

Lemma newline_to_pct_no_newline (s : str) : ~ In newline (newline_to_pct s).
Proof.
  unfold newline_to_pct. intros H. apply in_flat_map in H as [c [_ Hc]].
  destruct (N.eqb_spec c newline) as [Heq|Hne].
  - simpl in Hc. repeat (destruct Hc as [Hc|Hc]; [discriminate Hc|]).
    exact Hc.
  - destruct Hc as [Hc|[]]. congruence.
Qed.

Lemma changelog_transform_no_newline (text : str) :
  ~ In newline (EscapeChangelog.transform text).
Proof. rewrite changelog_transform_eq. apply newline_to_pct_no_newline. Qed.

(** A character gives one, two or three characters of output. *)
Lemma newline_to_pct_escape_length (s : str) :
  (List.length s <= List.length (newline_to_pct (escape_one_pass s))
   <= 3 * List.length s)%nat.
Proof.
  induction s as [|c s IH]; [simpl; lia|].
  unfold escape_one_pass in *. cbn [flat_map].
  rewrite newline_to_pct_app, length_app. cbn [List.length].
  assert (1 <= List.length
                 (newline_to_pct (if is_reserved c then [backslash; c] else [c]))
          <= 3)%nat; [|unfold str, char in *; lia].
  destruct (is_reserved c) eqn:Hc; unfold newline_to_pct; cbn [flat_map].
  - change (backslash =? newline) with false.
    destruct (N.eqb_spec c newline) as [Heq|_]; [|simpl; lia].
    rewrite Heq in Hc. discriminate Hc.
  - destruct (c =? newline); simpl; lia.
Qed.

Lemma changelog_transform_length (text : str) :
  (Nat.min 3500 (List.length text)
   <= List.length (EscapeChangelog.transform text)
   <= 3 * Nat.min 3500 (List.length text))%nat.
Proof.
  rewrite changelog_transform_eq, changelog_escape_one_pass.
  rewrite <- (length_firstn 3500 text).
  apply newline_to_pct_escape_length.
Qed.

(** X3: the text that the changelog script prints holds no newline, so a
    run that succeeds writes exactly one line to standard output. *)
Theorem changelog_prints_one_line :
  (forall text, ~ In newline (EscapeChangelog.transform text)) /\
  (forall env text,
      file_text env = inr text -> stdout_fault env = None ->
      count_occ N.eq_dec (stdout (fst (run (changelog_main env)))) newline
      = 1%nat).
Proof.
  split; [exact changelog_transform_no_newline|].
  intros env text Hf Hs. rewrite (changelog_success env text Hf Hs).
  cbn [fst stdout]. rewrite count_occ_app.
  pose proof (changelog_transform_no_newline text) as Hn.
  apply (count_occ_not_In N.eq_dec) in Hn.
  unfold str, char in *. rewrite Hn. reflexivity.
Qed.

Lemma changelog_prints_one_line_witness :
  count_occ N.eq_dec
    (stdout (fst (run (changelog_main
                         (working [97; newline; 98; newline])))))
    newline
  = 1%nat.
Proof.
  apply (proj2 changelog_prints_one_line
           (working [97; newline; 98; newline])
           [97; newline; 98; newline]); reflexivity.
Defined.

(** X4: the text that the changelog script prints has at least as many
    characters as the truncated text and at most three times as many, hence
    at most 10500; 3500 newlines reach that bound. *)
Theorem changelog_output_length :
  (forall text,
      (Nat.min 3500 (List.length text)
       <= List.length (EscapeChangelog.transform text)
       <= 3 * Nat.min 3500 (List.length text))%nat) /\
  (forall text,
      (List.length (EscapeChangelog.transform text) <= 3 * 3500)%nat) /\
  List.length (EscapeChangelog.transform (repeat newline 3500))
  = (3 * 3500)%nat.
Proof.
  split; [exact changelog_transform_length|]. split.
  - intros text. pose proof (changelog_transform_length text). lia.
  - vm_compute. reflexivity.
Qed.

(** X5: the changelog script ignores what follows the first 3500
    characters: adding text after them does not change what it prints. *)
Theorem changelog_ignores_tail (text more : str) :
  (3500 <= List.length text)%nat ->
  EscapeChangelog.transform (text ++ more) = EscapeChangelog.transform text.
Proof.
  intros H. rewrite !changelog_transform_eq. do 2 f_equal.
  rewrite firstn_app.
  replace (3500 - List.length text)%nat with 0%nat by lia.
  cbn [firstn]. apply app_nil_r.
Qed.

Lemma changelog_ignores_tail_witness :
  EscapeChangelog.transform (repeat underscore 3500 ++ lit "tail") =
  EscapeChangelog.transform (repeat underscore 3500).
Proof.
  apply (changelog_ignores_tail (repeat underscore 3500) (lit "tail")).
  rewrite repeat_length. lia.
Defined.

(** X6: within the 3500 characters the changelog script works piece by
    piece: a text of at most 3500 characters, cut anywhere, is printed as
    what is printed for its two pieces, one after the other. *)
Theorem changelog_transform_app (s t : str) :
  (List.length (s ++ t) <= 3500)%nat ->
  EscapeChangelog.transform (s ++ t) =
  EscapeChangelog.transform s ++ EscapeChangelog.transform t.
Proof.
  intros H. rewrite length_app in H. rewrite !changelog_transform_eq.
  rewrite !firstn_all2 by (rewrite ?length_app; lia).
  rewrite !changelog_escape_one_pass, escape_one_pass_app.
  apply newline_to_pct_app.
Qed.

Lemma changelog_transform_app_witness :
  EscapeChangelog.transform (lit "v1.2" ++ [newline; 42]) =
  EscapeChangelog.transform (lit "v1.2") ++
  EscapeChangelog.transform [newline; 42].
Proof.
  apply (changelog_transform_app (lit "v1.2") [newline; 42]).
  simpl. lia.
Defined.

End ChangelogOutput.

(** ** The text that the message script prints *)

Section MarkdownOutput.

Import UrllibParse Process.

Lemma encode_char_scalar (c : char) :
  encode_char c = None <-> scalar c = false.
Proof.
  unfold encode_char, scalar.
  destruct (N.ltb_spec c 0x80), (N.ltb_spec c 0x800),
    (N.ltb_spec c 0x10000), (N.leb_spec 0xD800 c), (N.leb_spec c 0xDFFF),
    (N.ltb_spec c 0x110000), (N.ltb_spec c 0xD800), (N.ltb_spec 0xDFFF c);
    cbn [andb orb]; split; intros Hx; try discriminate Hx; try reflexivity;
    lia.
Qed.

Lemma encode_scalar (s : str) :
  encode s = None <-> forallb scalar s = false.
Proof.
  induction s as [|c s IH]; cbn [encode forallb].
  - split; discriminate.
  - rewrite andb_false_iff, <- IH, <- encode_char_scalar.
    destruct (encode_char c), (encode s); intuition congruence.
Qed.

Lemma escape_one_pass_scalar (s : str) :
  forallb scalar (escape_one_pass s) = forallb scalar s.
Proof.
  induction s as [|c s IH]; [reflexivity|].
  unfold escape_one_pass in *. cbn [flat_map].
  rewrite forallb_app, IH.
  destruct (is_reserved c); cbn [forallb]; [|now rewrite andb_true_r].
  change (scalar backslash) with true. cbn [andb]. now rewrite andb_true_r.
Qed.

Lemma markdown_transform_none (text : str) :
  EscapeMarkdown.transform text = None <-> forallb scalar text = false.
Proof.
  unfold EscapeMarkdown.transform, quote, quote_with.
  rewrite <- (escape_one_pass_scalar text), <- markdown_escape_one_pass.
  rewrite <- encode_scalar.
  destruct (encode (EscapeMarkdown.escape_markdown_v2 text));
    split; intros H; try reflexivity; discriminate H.
Qed.

(** X7: the message script fails to transform a text exactly when the text
    holds a code point that is no Unicode scalar value (a surrogate): on a
    text decoded from UTF-8 [quote] never raises. *)
Theorem markdown_transform_fails_iff_surrogate :
  (forall text,
      forallb scalar text = true ->
      exists encoded, EscapeMarkdown.transform text = Some encoded) /\
  (forall text,
      forallb scalar text = false -> EscapeMarkdown.transform text = None).
Proof.
  split; intros text H.
  - destruct (EscapeMarkdown.transform text) as [encoded|] eqn:E.
    + now exists encoded.
    + apply markdown_transform_none in E. congruence.
  - now apply markdown_transform_none.
Qed.

Lemma markdown_transform_fails_iff_surrogate_witness :
  (exists encoded,
      EscapeMarkdown.transform [97; 0xE9; 0x20AC; 0x1F600] = Some encoded) /\
  EscapeMarkdown.transform [97; 0xD800] = None.
Proof.
  split.
  - apply (proj1 markdown_transform_fails_iff_surrogate). reflexivity.
  - apply (proj2 markdown_transform_fails_iff_surrogate). reflexivity.
Defined.

(** The bytes of UTF-8 are below 256. *)

Lemma log2_byte (x : N) : x < 256 -> N.log2 x < 8.
Proof.
  intros H. destruct (N.eq_dec x 0) as [->|Hx]; [reflexivity|].
  apply (N.log2_lt_pow2 x 8); [lia | exact H].
Qed.

Lemma lor_byte (a b : N) : a < 256 -> b < 256 -> N.lor a b < 256.
Proof.
  intros Ha Hb. destruct (N.eq_dec (N.lor a b) 0) as [->|Hx]; [lia|].
  apply (N.log2_lt_pow2 (N.lor a b) 8); [lia|].
  rewrite N.log2_lor. apply N.max_lub_lt; now apply log2_byte.
Qed.

Lemma land_byte (a m : N) : m < 256 -> N.land a m < 256.
Proof. intros H. pose proof (N.land_le_r a m). lia. Qed.

Lemma shiftr_byte (c k bound : N) :
  c < 2 ^ k * bound -> bound <= 256 -> N.shiftr c k < 256.
Proof.
  intros Hc Hb. rewrite N.shiftr_div_pow2.
  assert (c / 2 ^ k < bound); [|lia].
  apply N.Div0.div_lt_upper_bound. exact Hc.
Qed.

Lemma encode_char_bytes_all (c : char) :
  match encode_char c with
  | Some bs => Forall (fun b => b < 256) bs
  | None => True
  end.
Proof.
  unfold encode_char.
  destruct (N.ltb_spec c 0x80) as [H1|H1].
  { apply Forall_cons; [lia | apply Forall_nil]. }
  destruct (N.ltb_spec c 0x800) as [H2|H2].
  { repeat apply Forall_cons; try apply Forall_nil;
      (apply lor_byte; [lia|]); try (apply land_byte; lia).
    apply (shiftr_byte c 6 32); [exact H2 | lia]. }
  destruct (N.ltb_spec c 0x10000) as [H3|H3].
  { destruct ((0xD800 <=? c) && (c <=? 0xDFFF)); [exact I|].
    repeat apply Forall_cons; try apply Forall_nil;
      (apply lor_byte; [lia|]); try (apply land_byte; lia).
    apply (shiftr_byte c 12 16); [exact H3 | lia]. }
  destruct (N.ltb_spec c 0x110000) as [H4|H4]; [|exact I].
  repeat apply Forall_cons; try apply Forall_nil;
    (apply lor_byte; [lia|]); try (apply land_byte; lia).
  apply (shiftr_byte c 18 8); lia.
Qed.

Lemma encode_char_bytes (c : char) (bs : list byte) :
  encode_char c = Some bs -> Forall (fun b => b < 256) bs.
Proof.
  intros H. pose proof (encode_char_bytes_all c) as Hall.
  now rewrite H in Hall.
Qed.

Lemma encode_bytes (s : str) (bs : list byte) :
  encode s = Some bs -> Forall (fun b => b < 256) bs.
Proof.
  revert bs; induction s as [|c s IH]; cbn [encode]; intros bs.
  - intros [= <-]. constructor.
  - destruct (encode_char c) as [b|] eqn:Ec; [|discriminate].
    destruct (encode s) as [bs'|]; [|discriminate].
    intros [= <-]. apply Forall_app. split.
    + now apply encode_char_bytes with c.
    + now apply IH.
Qed.

Lemma hex_digit_safe (d : N) :
  d < 16 -> mem (hex_digit d) _ALWAYS_SAFE = true.
Proof.
  intros H. destruct d as [|p]; [reflexivity|].
  do 4 (try destruct p as [p|p|]); try reflexivity; lia.
Qed.

Lemma mem_app (c : char) (l l' : list char) :
  mem c (l ++ l') = mem c l || mem c l'.
Proof. apply existsb_app. Qed.

(** A byte is printed in the characters of [quoted_alphabet]. *)
Lemma quoter_alphabet (b : byte) :
  b < 256 ->
  forallb (fun c => mem c quoted_alphabet) (quoter [slash] b) = true.
Proof.
  intros Hb. unfold quoter, quoted_alphabet.
  destruct (mem b (_ALWAYS_SAFE ++ [slash])) eqn:Hm.
  - cbn [forallb]. rewrite andb_true_r.
    rewrite mem_app in *. apply orb_true_iff in Hm as [Hm|Hm].
    + now rewrite Hm.
    + rewrite orb_true_iff. right.
      unfold mem in *. cbn [existsb] in *. rewrite orb_false_r in Hm.
      now rewrite Hm.
  - cbn [forallb]. rewrite !mem_app, !hex_digit_safe.
    + reflexivity.
    + apply N.mod_lt. discriminate.
    + apply N.Div0.div_lt_upper_bound. exact Hb.
Qed.

Lemma quote_alphabet (s encoded : str) :
  quote s = Some encoded ->
  forallb (fun c => mem c quoted_alphabet) encoded = true.
Proof.
  unfold quote, quote_with.
  destruct (encode s) as [bs|] eqn:E; [|discriminate].
  intros [= <-]. apply encode_bytes in E.
  unfold quote_from_bytes. change (filter (fun c => c <? 128) [slash])
    with [slash].
  induction E as [|b bs Hb _ IH]; [reflexivity|].
  cbn [flat_map]. rewrite forallb_app, IH, quoter_alphabet by exact Hb.
  reflexivity.
Qed.

Lemma alphabet_no_newline (encoded : str) :
  forallb (fun c => mem c quoted_alphabet) encoded = true ->
  ~ In newline encoded /\ ~ In backslash encoded.
Proof.
  intros H. rewrite forallb_forall in H.
  split; intros Hin; apply H in Hin; discriminate Hin.
Qed.

(** X8: whatever the message script prints is made of ASCII letters,
    digits, [_], [.], [-], [~], [/] and [%] only; it holds no newline and
    no backslash. *)
Theorem markdown_output_alphabet (text encoded : str) :
  EscapeMarkdown.transform text = Some encoded ->
  (forall c, In c encoded -> In c quoted_alphabet) /\
  ~ In newline encoded /\ ~ In backslash encoded.
Proof.
  intros H. apply quote_alphabet in H. split.
  - intros c Hc. rewrite forallb_forall in H. apply mem_In. now apply H.
  - now apply alphabet_no_newline.
Qed.

Lemma markdown_output_alphabet_witness :
  (forall c, In c (lit "a%5C_b%5C%2Ac%0A%F0%9F%98%80") ->
             In c quoted_alphabet) /\
  ~ In newline (lit "a%5C_b%5C%2Ac%0A%F0%9F%98%80") /\
  ~ In backslash (lit "a%5C_b%5C%2Ac%0A%F0%9F%98%80").
Proof.
  apply (markdown_output_alphabet (lit "a_b*c" ++ [newline; 0x1F600])).
  reflexivity.
Defined.

(** X9: on a text decoded from UTF-8 and with a standard output that takes
    everything, the message script succeeds: it writes one line, the
    percent-encoded text, to standard output, nothing to standard error, and
    its status is 0. *)
Theorem markdown_run_succeeds (env : Env) (text : str) :
  file_text env = inr text -> forallb scalar text = true ->
  stdout_fault env = None ->
  exists encoded,
    EscapeMarkdown.transform text = Some encoded /\
    run (markdown_main env)
      = ({| stdout := encoded ++ [newline]; stderr := [] |}, 0) /\
    count_occ N.eq_dec (stdout (fst (run (markdown_main env)))) newline
      = 1%nat.
Proof.
  intros Hf Hs Ho.
  destruct (EscapeMarkdown.transform text) as [encoded|] eqn:E.
  - exists encoded. split; [reflexivity|].
    rewrite (markdown_success env text encoded Hf E Ho).
    split; [reflexivity|]. cbn [fst stdout]. rewrite count_occ_app.
    apply quote_alphabet, alphabet_no_newline in E. destruct E as [Hn _].
    apply (count_occ_not_In N.eq_dec) in Hn.
    unfold str, char in *. rewrite Hn. reflexivity.
  - apply markdown_transform_none in E. congruence.
Qed.

Lemma markdown_run_succeeds_witness :
  exists encoded,
    EscapeMarkdown.transform (lit "a_b") = Some encoded /\
    run (markdown_main (working (lit "a_b")))
      = ({| stdout := encoded ++ [newline]; stderr := [] |}, 0) /\
    count_occ N.eq_dec
      (stdout (fst (run (markdown_main (working (lit "a_b"))))))
      newline
      = 1%nat.
Proof.
  apply (markdown_run_succeeds (working (lit "a_b")) (lit "a_b"));
    reflexivity.
Defined.

End MarkdownOutput.

(** ** Both escapers: how a run ends *)

Section ExitStatus.

Import Process.

Variable env : Env.

(** The handler ends the process with status 1, or raises when standard
    error does not take the report. *)
Lemma report_ends (e : PyException) (w : World) :
  (exists w', report env e w = (Exits 1, w') /\ same_out w w') \/
  (exists e' w', report env e w = (Raises e', w') /\ same_out w w' /\
                 err_failed w' = true).
Proof.
  unfold report, bind, print_stderr, stderr_write, sys_exit.
  destruct (stderr_fault env) as [[k e']|].
  - destruct (List.length ((lit "Error: " ++ message e) ++ [newline])
              <=? k - List.length (err_device w))%nat.
    + left. eexists. split; [reflexivity | now repeat split].
    + right. eexists _, _. split; [reflexivity|]. now repeat split.
  - left. eexists. split; [reflexivity | now repeat split].
Qed.

(** How [main] ends after [print]: it returns, with standard error
    untouched; or the handler has ended the process with status 1; or the
    handler has raised, its report having failed. *)
Lemma handled_print_ends (s : str) :
  (exists w, print env s start = (Returns tt, w) /\
             match print env s start with
             | (Raises e, w) => report env e w
             | r => r
             end = (Returns tt, w)) \/
  (exists w, match print env s start with
             | (Raises e, w) => report env e w
             | r => r
             end = (Exits 1, w) /\
             out_buffer w = [] /\ out_pending w = None) \/
  (exists e w, match print env s start with
               | (Raises e, w) => report env e w
               | r => r
               end = (Raises e, w) /\
               err_failed w = true).
Proof.
  destruct (print_start env s) as [[w H]|(e & w & H & Hb & Hp & _)];
    rewrite H.
  - left. exists w. now split.
  - destruct (report_ends e w)
      as [(w' & -> & Ho)|(e' & w' & -> & Ho & Hf)].
    + right. left. exists w'. split; [reflexivity|].
      destruct Ho as (_ & Hb' & Hp'). split; congruence.
    + right. right. now exists e', w'.
Qed.

(** The status of a run whose [main] ends in one of these ways. *)
Lemma run_status (main : io env unit) :
  ((exists w, main start = (Returns tt, w)) \/
   (exists w, main start = (Exits 1, w)) \/
   (exists e w, main start = (Raises e, w))) ->
  snd (run main) = 0 \/ snd (run main) = 1 \/ snd (run main) = 120.
Proof.
  unfold run. intros [[w ->]|[[w ->]|(e & w & ->)]];
    match goal with
    | |- context [stdout_flush env ?w0] =>
        destruct (stdout_flush env w0) as [[e0 w1]|w1]
    end; cbn [snd]; try (right; right; reflexivity);
    destruct (err_failed w1); auto.
Qed.

Lemma changelog_main_ends :
  (exists w, changelog_main env start = (Returns tt, w)) \/
  (exists w, changelog_main env start = (Exits 1, w)) \/
  (exists e w, changelog_main env start = (Raises e, w)).
Proof.
  destruct (file_text env) as [e|text] eqn:Hf.
  - unfold changelog_main, try_except, bind, read_file. rewrite Hf.
    unfold raise.
    destruct (report_ends e start) as [(w & -> & _)|(e' & w & -> & _)];
      [right; left; now exists w | right; right; now exists e', w].
  - rewrite (changelog_main_text env text Hf).
    destruct (handled_print_ends (EscapeChangelog.transform text))
      as [(w & _ & ->)|[(w & -> & _)|(e & w & -> & _)]];
      [left; now exists w | right; left; now exists w
      | right; right; now exists e, w].
Qed.

Lemma markdown_main_ends :
  (exists w, markdown_main env start = (Returns tt, w)) \/
  (exists w, markdown_main env start = (Exits 1, w)) \/
  (exists e w, markdown_main env start = (Raises e, w)).
Proof.
  destruct (file_text env) as [e|text] eqn:Hf.
  - unfold markdown_main, try_except, bind, read_file. rewrite Hf.
    unfold raise.
    destruct (report_ends e start) as [(w & -> & _)|(e' & w & -> & _)];
      [right; left; now exists w | right; right; now exists e', w].
  - destruct (EscapeMarkdown.transform text) as [encoded|] eqn:Hq.
    + rewrite (markdown_main_text env text encoded Hf Hq).
      destruct (handled_print_ends encoded)
        as [(w & _ & ->)|[(w & -> & _)|(e & w & -> & _)]];
        [left; now exists w | right; left; now exists w
        | right; right; now exists e, w].
    + unfold EscapeMarkdown.transform in Hq.
      unfold markdown_main, try_except, bind, read_file. rewrite Hf.
      cbv beta iota delta [ret]. rewrite Hq. unfold raise.
      destruct (report_ends
                  (encode_error env (EscapeMarkdown.escape_markdown_v2 text))
                  start) as [(w & -> & _)|(e' & w & -> & _)];
        [right; left; now exists w | right; right; now exists e', w].
Qed.

(** With a standard error that takes everything the handler does not
    raise. *)
Lemma report_exits (e : PyException) (w : World) :
  stderr_fault env = None -> exists w', report env e w = (Exits 1, w').
Proof. intros H. rewrite (report_written env e w H). eexists. reflexivity. Qed.

(** X10: in both scripts [main] ends in one of three ways: it returns, it
    ends the process through [sys.exit(1)], or, when standard error does
    not take the report, the handler itself raises; with a standard error
    that takes everything no exception leaves [main].  The exit status of a
    run is therefore 0, 1 or 120. *)
Theorem escapers_exit_status :
  (stderr_fault env = None ->
   ((exists w, changelog_main env start = (Returns tt, w)) \/
    (exists w, changelog_main env start = (Exits 1, w))) /\
   ((exists w, markdown_main env start = (Returns tt, w)) \/
    (exists w, markdown_main env start = (Exits 1, w)))) /\
  (snd (run (changelog_main env)) = 0 \/
   snd (run (changelog_main env)) = 1 \/
   snd (run (changelog_main env)) = 120) /\
  (snd (run (markdown_main env)) = 0 \/
   snd (run (markdown_main env)) = 1 \/
   snd (run (markdown_main env)) = 120).
Proof.
  split; [|split; apply run_status;
           [apply changelog_main_ends | apply markdown_main_ends]].
  intros Hs. split.
  - destruct changelog_main_ends as [H|[H|(e & w & H)]]; auto.
    exfalso. revert H.
    destruct (file_text env) as [e0|text] eqn:Hf.
    + unfold changelog_main, try_except, bind, read_file. rewrite Hf.
      unfold raise. destruct (report_exits e0 start Hs) as [w' ->].
      discriminate.
    + rewrite (changelog_main_text env text Hf).
      destruct (print_start env (EscapeChangelog.transform text))
        as [[w1 ->]|(e1 & w1 & -> & _)]; [discriminate|].
      destruct (report_exits e1 w1 Hs) as [w' ->]. discriminate.
  - destruct markdown_main_ends as [H|[H|(e & w & H)]]; auto.
    exfalso. revert H.
    destruct (file_text env) as [e0|text] eqn:Hf.
    + unfold markdown_main, try_except, bind, read_file. rewrite Hf.
      unfold raise. destruct (report_exits e0 start Hs) as [w' ->].
      discriminate.
    + destruct (EscapeMarkdown.transform text) as [encoded|] eqn:Hq.
      * rewrite (markdown_main_text env text encoded Hf Hq).
        destruct (print_start env encoded)
          as [[w1 ->]|(e1 & w1 & -> & _)]; [discriminate|].
        destruct (report_exits e1 w1 Hs) as [w' ->]. discriminate.
      * unfold EscapeMarkdown.transform in Hq.
        unfold markdown_main, try_except, bind, read_file. rewrite Hf.
        cbv beta iota delta [ret]. rewrite Hq. unfold raise.
        destruct (report_exits
                    (encode_error env
                       (EscapeMarkdown.escape_markdown_v2 text))
                    start Hs) as [w' ->].
        discriminate.
Qed.

End ExitStatus.

Lemma escapers_exit_status_witness :
  ((exists w, Process.changelog_main missing_file Process.start
              = (Process.Returns tt, w)) \/
   (exists w, Process.changelog_main missing_file Process.start
              = (Process.Exits 1, w))) /\
  ((exists w, Process.markdown_main missing_file Process.start
              = (Process.Returns tt, w)) \/
   (exists w, Process.markdown_main missing_file Process.start
              = (Process.Exits 1, w))).
Proof.
  apply (proj1 (escapers_exit_status missing_file)). reflexivity.
Defined.

(** ** The sync script without a placeholder *)

Section SyncAbsent.

Import SyncReadme.

(** A text that does not hold [old] is left as it is. *)
Lemma replace_absent (old new s : str) :
  old <> [] -> contains old s = false -> replace old new s = s.
Proof.
  intros Hold. induction s as [|c s IH]; intros H.
  - now apply replace_nil.
  - cbn [contains] in H. apply orb_false_iff in H as [H1 H2].
    rewrite replace_copy by assumption. now rewrite IH.
Qed.

(** Replacing a text by itself changes nothing. *)
Lemma replace_same (old : str) (n : nat) (s : str) :
  old <> [] -> (List.length s <= n)%nat -> replace old old s = s.
Proof.
  intros Hold. revert s. induction n as [|n IH]; intros s Hn.
  - destruct s; [now apply replace_nil | simpl in Hn; lia].
  - destruct s as [|c s]; [now apply replace_nil|].
    destruct (startswith old (c :: s)) eqn:E.
    + apply startswith_split in E. rewrite E at 1.
      rewrite replace_head by exact Hold.
      rewrite IH; [symmetry; exact E|].
      rewrite length_skipn. destruct old; [congruence|].
      simpl in *. lia.
    + rewrite replace_copy by assumption.
      rewrite IH; [reflexivity | simpl in Hn; lia].
Qed.

(** X11: when the content does not hold the placeholder the sync script
    writes the content back as it is, whatever was fetched; and fetching
    the placeholder itself leaves any content as it is. *)
Theorem new_content_without_placeholder :
  (forall content raw_content,
      contains placeholder content = false ->
      new_content content raw_content = content) /\
  (forall content, new_content content placeholder = content).
Proof.
  split.
  - intros content raw H. unfold new_content.
    apply replace_absent; [exact placeholder_not_empty | exact H].
  - intros content. unfold new_content.
    apply (replace_same placeholder (List.length content));
      [exact placeholder_not_empty | lia].
Qed.

Lemma new_content_without_placeholder_witness :
  new_content (lit "# ArchiveTune Nightly") (lit "fetched") =
  lit "# ArchiveTune Nightly".
Proof.
  apply (proj1 new_content_without_placeholder). reflexivity.
Defined.

End SyncAbsent.
